(** * doc-qa-engine: the retrieval core and the service around it

    A shallow embedding of [backend/text_chunker.py] and
    [backend/simple_vector_store.py], and the properties of the chunker,
    the per-document vector store and the cosine-similarity search that
    the specification states about them; then of the PDF extraction, the
    clients of the embeddings and completion endpoints and the two
    handlers of [backend/main.py], with the properties of an upload and
    of a question.

    Conventions of the embedding:
    - a Python [int] is a [Z]; a Python [str] is the list of its Unicode
      code points, so that [len] counts characters as Python does;
    - a numpy [float64] is a primitive IEEE-754 binary64 [float];
    - a [while] loop is a fixpoint over a bound on the number of its
      iterations; a run that needs more iterations than the bound is
      reported as [Unfinished], together with what it has appended so far;
    - a raised exception is a value of [result]; the registry of open
      stores and the storage directory are threaded as an explicit
      [world];
    - the PDF reader, the two endpoints and the tokenizer are parameters:
      what they return or raise is given, and the requests that a handler
      sends are recorded in the state of the process. *)

From Stdlib Require Import ZArith List Bool Lia Sorted Permutation.
From Stdlib Require Import Floats.
From stdpp Require Import gmap strings list pretty.

Local Open Scope Z_scope.

(** ** Python built-ins used by the sources *)

Module Py.

(** A character is its code point; a string the list of its characters. *)
Definition char : Type := N.
Definition str : Type := list char.

(** The code points of a literal, for examples. *)
Definition lit (s : string) : str :=
  map (fun a : Ascii.ascii => N.of_nat (Ascii.nat_of_ascii a))
      (String.list_ascii_of_string s).

Definition len {A : Type} (l : list A) : Z := Z.of_nat (length l).

(** Truth value of a sequence: empty is false. *)
Definition truthy {A : Type} (l : list A) : bool :=
  match l with [] => false | _ :: _ => true end.

(** How a slice bound is read against a sequence of length [n]: a
    negative bound counts from the end, and every bound is clamped to
    [0..n]. *)
Definition slice_index (n i : Z) : Z :=
  if i <? 0 then Z.max 0 (i + n) else Z.min i n.

(** [l[start:stop]]; an omitted [start] is [0]. *)
Definition slice {A : Type} (l : list A) (start stop : Z) : list A :=
  let n := len l in
  let lo := slice_index n start in
  let hi := slice_index n stop in
  firstn (Z.to_nat (hi - lo)) (skipn (Z.to_nat lo) l).

(** [str.isspace] on one character, as CPython's
    [_PyUnicode_IsWhitespace] decides it. *)
Definition isspace (c : char) : bool :=
  (((9 <=? c) && (c <=? 13)) || ((28 <=? c) && (c <=? 32))
   || (c =? 133) || (c =? 160) || (c =? 5760)
   || ((8192 <=? c) && (c <=? 8202))
   || (c =? 8232) || (c =? 8233) || (c =? 8239) || (c =? 8287)
   || (c =? 12288))%N.

Fixpoint lstrip (s : str) : str :=
  match s with
  | c :: s' => if isspace c then lstrip s' else s
  | [] => []
  end.

Definition rstrip (s : str) : str := rev (lstrip (rev s)).

Definition strip (s : str) : str := rstrip (lstrip s).

End Py.

Import Py.

(** ** text_chunker.py *)

(** Chunking parameters. *)
Definition CHUNK_SIZE_TOKENS : Z := 1000.
Definition CHUNK_OVERLAP_TOKENS : Z := 150.
Definition CHUNK_SIZE_CHARS : Z := 4000.
Definition CHUNK_OVERLAP_CHARS : Z := 500.

(** The dictionary [chunk_text] appends for each window. *)
Record Chunk : Type := mkChunk {
  text : str;
  chunk_index : Z;
  start_char : Z;
  end_char : Z
}.

(** The outcome of running a loop for at most a given number of
    iterations. *)
Inductive run (A : Type) : Type :=
| Returned (a : A)
| Unfinished (partial : A).

Arguments Returned {A} a.
Arguments Unfinished {A} partial.

(** What a run has produced, finished or not. *)
Definition produced {A : Type} (r : run A) : A :=
  match r with Returned a => a | Unfinished a => a end.

Definition returned {A : Type} (r : run A) : option A :=
  match r with Returned a => Some a | Unfinished _ => None end.

Section Chunker.

(** The tokenizer is tiktoken's [cl100k_base]: [encode] is
    [get_encoding] followed by [encoding.encode], and is [None] when
    either raises; [decode] is [encoding.decode], which replaces what it
    cannot decode and does not raise. *)
Context {token : Type}.
Variable encode : str -> option (list token).
Variable decode : list token -> str.

(** The [while i < len(tokens)] loop of the [try] block. *)
Fixpoint token_loop (fuel : nat) (tokens : list token)
    (chunk_size_tokens overlap_tokens : Z)
    (i chunk_index : Z) (chunks : list Chunk) : run (list Chunk) :=
  if i <? len tokens then
    match fuel with
    | O => Unfinished chunks
    | S fuel' =>
        let chunk_tokens := slice tokens i (i + chunk_size_tokens) in
        let chunk_text := decode chunk_tokens in
        let tokens_before := slice tokens 0 i in
        let start_char := len (decode tokens_before) in
        let end_char := start_char + len chunk_text in
        let chunks :=
          chunks ++ [mkChunk chunk_text chunk_index start_char end_char] in
        let i := i + (chunk_size_tokens - overlap_tokens) in
        let chunk_index := chunk_index + 1 in
        if i >=? len tokens then Returned chunks
        else
          let i := if i =? 0 then chunk_size_tokens - overlap_tokens else i in
          token_loop fuel' tokens chunk_size_tokens overlap_tokens
                     i chunk_index chunks
    end
  else Returned chunks.

(** The [while i < text_len] loop of the [except] block. *)
Fixpoint char_loop (fuel : nat) (text : str)
    (chunk_size_chars overlap_chars : Z)
    (i chunk_index : Z) (chunks : list Chunk) : run (list Chunk) :=
  let text_len := len text in
  if i <? text_len then
    match fuel with
    | O => Unfinished chunks
    | S fuel' =>
        let end_ := Z.min (i + chunk_size_chars) text_len in
        let chunk_text := slice text i end_ in
        let chunks := chunks ++ [mkChunk chunk_text chunk_index i end_] in
        let i := i + (chunk_size_chars - overlap_chars) in
        let chunk_index := chunk_index + 1 in
        if i >=? text_len then Returned chunks
        else
          let i := if i =? 0 then chunk_size_chars - overlap_chars else i in
          char_loop fuel' text chunk_size_chars overlap_chars
                    i chunk_index chunks
    end
  else Returned chunks.

Definition chunk_text (fuel : nat) (text : str) (chunk_size overlap : Z)
  : run (list Chunk) :=
  if negb (truthy text) || (len (strip text) =? 0) then Returned []
  else
    let chunks := [] in
    match encode text with
    | Some tokens => token_loop fuel tokens chunk_size overlap 0 0 chunks
    | None =>
        char_loop fuel text CHUNK_SIZE_CHARS CHUNK_OVERLAP_CHARS 0 0 chunks
    end.

End Chunker.

(** Two tokenizers to run the chunker on: one that is unavailable, so that
    every call takes the character fallback, and one whose tokens are the
    characters themselves. *)
Definition no_encode : str -> option (list char) := fun _ => None.
Definition char_encode : str -> option (list char) := fun s => Some s.
Definition char_decode : list char -> str := fun ts => ts.


(** ** What the specification says of a chunk sequence *)

(** [end_char] is [start_char] plus the length of the chunk's text. *)
Definition span_is_text (c : Chunk) : Prop :=
  end_char c = start_char c + len (text c).

(** Every [chunk_index] is the position of its chunk. *)
Definition numbered (chunks : list Chunk) : Prop :=
  map chunk_index chunks = map Z.of_nat (seq 0 (length chunks)).




(** The guard at the head of [chunk_text]. *)
Definition is_blank (s : str) : bool :=
  negb (truthy s) || (len (strip s) =? 0).

(** ** simple_vector_store.py *)

(** Exceptions that the store lets escape. The specification's
    [ValidationError] is the [ValueError] of the sources. *)
Inductive exn : Type := ValueError | IndexError.

Inductive result (A : Type) : Type :=
| Ok (a : A)
| Raise (e : exn).

Arguments Ok {A} a.
Arguments Raise {A} e.

#[global] Instance result_ret : MRet result := fun A a => Ok a.

#[global] Instance result_bind : MBind result :=
  fun A B k r => match r with Ok a => k a | Raise e => Raise e end.

(** An embedding, as a one-dimensional [float64] array. *)
Definition vector : Type := list float.

Module np.

(** [np.array] of a list of floats, and [ndarray.tolist]. *)
Definition array (emb : list float) : vector := emb.
Definition tolist (emb : vector) : list float := emb.

(** The sum of the products of the components, from the left. *)
Definition sum_products (a b : vector) : float :=
  fold_left (fun acc xy => acc + fst xy * snd xy)%float (combine a b) 0%float.

(** [np.dot] of two one-dimensional arrays; arrays of different lengths
    are a [ValueError]. *)
Definition dot (a b : vector) : result float :=
  if (length a =? length b)%nat then Ok (sum_products a b)
  else Raise ValueError.

(** [np.linalg.norm] of a one-dimensional array: [sqrt(x.dot(x))]. *)
Definition norm (a : vector) : float := PrimFloat.sqrt (sum_products a a).

End np.

Definition _cosine_similarity (vec1 vec2 : vector) : result float :=
  dot_product ← np.dot vec1 vec2;
  let norm1 := np.norm vec1 in
  let norm2 := np.norm vec2 in
  if (norm1 =? 0)%float || (norm2 =? 0)%float then Ok 0%float
  else Ok (dot_product / (norm1 * norm2))%float.

(** The fields of a store object; [storage_file] is a function of
    [doc_id]. *)
Record SimpleVectorStore : Type := mkStore {
  doc_id : string;
  embeddings : list vector;
  chunks : list Chunk
}.

Definition storage_file (doc_id : string) : string :=
  String.append "doc_" (String.append doc_id ".json").

(** What [json.load] makes of a stored file: an object whose keys
    ["doc_id"], ["embeddings"] and ["chunks"], where present, hold a
    string, a list of lists of numbers and a list of chunk objects; or
    nothing that [_load] can read without an exception. [json.dump]
    followed by [json.load] gives back the strings, integers and floats
    that were written. *)
Record json_object : Type := mkJson {
  json_doc_id : option string;
  json_embeddings : option (list (list float));
  json_chunks : option (list Chunk)
}.

Inductive file : Type :=
| Readable (data : json_object)
| Unreadable.

(** [self._load()]: [self] after the call. *)
Definition _load (self : SimpleVectorStore) (files : gmap string file)
  : SimpleVectorStore :=
  match files !! storage_file (doc_id self) with
  | Some (Readable data) =>
      mkStore (doc_id self)
              (map np.array (default [] (json_embeddings data)))
              (default [] (json_chunks data))
  | Some Unreadable => mkStore (doc_id self) [] []
  | None => self
  end.

(** A text that the [utf-8] codec encodes: it holds no surrogate, a
    character from [U+D800] to [U+DFFF]. *)
Definition encodable (s : str) : bool :=
  forallb (fun c : char => negb ((55296 <=? c) && (c <=? 57343))%N) s.

(** [self._save()]: the storage directory after the call. Every
    exception of the body is caught by the [except] clause, which prints
    it. [writable] tells of a path whether [open(path, 'w')] gives a file
    or raises, as it does for the name of a file in a directory that does
    not exist. When it raises, nothing is written. When it gives a file,
    the file is emptied and [json.dump] writes the data to it piece by
    piece, with [ensure_ascii=False]: a surrogate in the text of a chunk
    makes the codec raise in the middle, and what is left in the file is
    the beginning of a JSON text, which [json.load] cannot read. *)
Definition _save (writable : string -> bool) (self : SimpleVectorStore)
    (files : gmap string file) : gmap string file :=
  let data :=
    mkJson (Some (doc_id self))
           (Some (map np.tolist (embeddings self)))
           (Some (chunks self)) in
  if negb (writable (storage_file (doc_id self))) then files
  else if forallb (fun chunk : Chunk => encodable (text chunk)) (chunks self)
  then <[storage_file (doc_id self) := Readable data]> files
  else <[storage_file (doc_id self) := Unreadable]> files.

(** [SimpleVectorStore(doc_id)]. *)
Definition __init__ (doc_id : string) (files : gmap string file)
  : SimpleVectorStore :=
  _load (mkStore doc_id [] []) files.

(** [self.add(chunks, embeddings)]: what the call raises or returns,
    [self] after the call, and the storage directory after the call. *)
Definition add (writable : string -> bool) (self : SimpleVectorStore)
    (chunks : list Chunk) (embeddings : list (list float))
    (files : gmap string file)
  : result unit * SimpleVectorStore * gmap string file :=
  if negb (len chunks =? len embeddings) then (Raise ValueError, self, files)
  else
    let self := mkStore (doc_id self) (map np.array embeddings) chunks in
    let files := _save writable self files in
    (Ok tt, self, files).

(** A search result: a copy of the chunk with its ["score"]. *)
Record Hit : Type := mkHit {
  hit_chunk : Chunk;
  score : float
}.

(** [list.sort(key=lambda x: x[1], reverse=True)] on the pairs of a
    position and a score. The sort is stable and compares keys with [<]
    only; one element is put after the elements already placed whose score
    is greater than its own, and before all others, so that equal scores
    stay in the order of the list. Where [<] orders the keys, that is
    where no key is NaN, this is the list that every stable sort returns. *)
Fixpoint insert_by_score (x : nat * float) (l : list (nat * float))
  : list (nat * float) :=
  match l with
  | [] => [x]
  | y :: l' =>
      if (snd x <? snd y)%float then y :: insert_by_score x l' else x :: l
  end.

Definition sort_by_score (l : list (nat * float)) : list (nat * float) :=
  foldr insert_by_score [] l.

(** [enumerate]. *)
Definition enumerate {A : Type} (l : list A) : list (nat * A) :=
  imap (fun i a => (i, a)) l.

(** [self.chunks[idx]] for a non-negative [idx]. *)
Definition getitem {A : Type} (l : list A) (idx : nat) : result A :=
  match l !! idx with
  | Some a => Ok a
  | None => Raise IndexError
  end.

(** The first loop of [search]: the list [similarities] before it is
    sorted. *)
Definition similarities (self : SimpleVectorStore) (query_vec : vector)
  : result (list (nat * float)) :=
  mapM (fun ie : nat * vector =>
          sim ← _cosine_similarity query_vec (snd ie);
          mret (fst ie, sim))
       (enumerate (embeddings self)).

(** The second loop of [search]. *)
Definition top_results (self : SimpleVectorStore)
    (selected : list (nat * float)) : result (list Hit) :=
  mapM (fun entry : nat * float =>
          chunk ← getitem (chunks self) (fst entry);
          mret (mkHit chunk (snd entry)))
       selected.

Definition search (self : SimpleVectorStore) (query_embedding : list float)
    (top_k : Z) : result (list Hit) :=
  if len (embeddings self) =? 0 then Ok []
  else
    let query_vec := np.array query_embedding in
    similarities ← similarities self query_vec;
    let similarities := sort_by_score similarities in
    top_results self (slice similarities 0 top_k).

(** The process: the registry [_stores] of open stores and the storage
    directory. A store object is reached through the registry only, so
    the registry holds its fields. *)
Record world : Type := mkWorld {
  _stores : gmap string SimpleVectorStore;
  files : gmap string file
}.

Definition get_or_create_store (doc_id : string) (w : world)
  : SimpleVectorStore * world :=
  match _stores w !! doc_id with
  | Some store => (store, w)
  | None =>
      let store := __init__ doc_id (files w) in
      (store, mkWorld (<[doc_id := store]> (_stores w)) (files w))
  end.

Definition store_document (writable : string -> bool) (doc_id : string)
    (chunks : list Chunk) (embeddings : list (list float)) (w : world)
  : result Z * world :=
  if negb (len chunks =? len embeddings) then (Raise ValueError, w)
  else
    let '(store, w) := get_or_create_store doc_id w in
    let '(outcome, store, files) :=
      add writable store chunks embeddings (files w) in
    let w := mkWorld (<[doc_id := store]> (_stores w)) files in
    match outcome with
    | Ok _ => (Ok (len chunks), w)
    | Raise e => (Raise e, w)
    end.

(** The keys of a result other than ["text"] and ["score"]. *)
Record Metadata : Type := mkMetadata {
  meta_chunk_index : Z;
  meta_start_char : Z;
  meta_end_char : Z
}.

Record Source : Type := mkSource {
  source_text : str;
  source_score : float;
  source_chunk_index : Z;
  metadata : Metadata
}.

Definition search_document (doc_id : string) (query_embedding : list float)
    (top_k : Z) (w : world) : result (list Source) * world :=
  let '(store, w) := get_or_create_store doc_id w in
  match search store query_embedding top_k with
  | Ok results =>
      let sources :=
        map (fun hit : Hit =>
               let c := hit_chunk hit in
               mkSource (text c) (score hit) (chunk_index c)
                        (mkMetadata (chunk_index c) (start_char c) (end_char c)))
            results in
      (Ok sources, w)
  | Raise e => (Raise e, w)
  end.


(** A process that has opened no store, over an empty storage
    directory. *)
Definition fresh_world : world := mkWorld ∅ ∅.

(** A storage directory that holds files only: a name with a separator,
    the character [/] of code 47, is the name of a file in a directory
    that does not exist, for which [open] raises [FileNotFoundError];
    every other name can be written. *)
Fixpoint has_separator (name : string) : bool :=
  match name with
  | EmptyString => false
  | String c name' =>
      Ascii.eqb c (Ascii.ascii_of_nat 47) || has_separator name'
  end.

Definition flat_directory : string -> bool :=
  fun name => negb (has_separator name).

(** The registry holds each store under its own [doc_id], as
    [get_or_create_store] enters it. *)
Definition registry_keyed (w : world) : Prop :=
  forall (d : string) (store : SimpleVectorStore),
    _stores w !! d = Some store -> doc_id store = d.

(** ** What the specification says of a ranking *)

(** The entry [a] may stand before the entry [b]: its score is not less,
    and if the two scores tie it is the one inserted first. *)
Definition ranks_before (a b : nat * float) : Prop :=
  (snd a <? snd b)%float = false
  /\ ((snd b <? snd a)%float = false -> (fst a < fst b)%nat).

(** Sorted by score, descending, ties in the order of insertion. *)
Definition ranked (l : list (nat * float)) : Prop :=
  forall (p r : nat) (a b : nat * float),
    (p < r)%nat -> l !! p = Some a -> l !! r = Some b -> ranks_before a b.

(** No similarity of the query with a stored vector is NaN, so that [<]
    orders the scores. *)
Definition scores_comparable (self : SimpleVectorStore) (query_vec : vector)
  : Prop :=
  forall (emb : vector) (sim : float),
    emb ∈ embeddings self ->
    _cosine_similarity query_vec emb = Ok sim ->
    PrimFloat.is_nan sim = false.

(** The entry of the ranking that a result was built from: the position
    names the chunk and the stored vector, and the score is the
    similarity of the query with that vector. *)
Definition hit_of (self : SimpleVectorStore) (query_vec : vector)
    (entry : nat * float) (hit : Hit) : Prop :=
  chunks self !! fst entry = Some (hit_chunk hit)
  /\ score hit = snd entry
  /\ exists emb,
       embeddings self !! fst entry = Some emb
       /\ _cosine_similarity query_vec emb = Ok (snd entry).

(** ** The end-to-end scenario of the specification *)

Definition pie_chunks : list Chunk :=
  [mkChunk (lit "apple pie") 0 0 9;
   mkChunk (lit "banana bread") 1 9 21;
   mkChunk (lit "apple pie") 2 21 30].

Definition pie_vectors : list (list float) :=
  [[1; 0]; [0; 1]; [1; 0]]%float.

Definition pie_query : list float := [1; 0]%float.

(** The store object after the three chunks were added. *)
Definition pie_store : SimpleVectorStore :=
  mkStore "pies" (map np.array pie_vectors) pie_chunks.

(** The process after the three chunks were ingested. *)
Definition pie_world : world :=
  snd (store_document flat_directory "pies" pie_chunks pie_vectors
                      fresh_world).

(** Two stores that [_save] cannot write: one for a document whose
    identifier holds a separator, and one whose only chunk has a text
    made of the surrogate [U+D800]. *)
Definition slash_store : SimpleVectorStore :=
  mkStore "a/b" (map np.array pie_vectors) pie_chunks.


(** A collection in which one dot product overflows: the second vector
    has the component [2.0 ** 1000], and the query [2.0 ** 30]. *)
Definition overflow_store : SimpleVectorStore :=
  mkStore "pies"
          (map np.array [[0; 1]; [0x1p+1000; 0]; [1; 0]]%float)
          pie_chunks.

Definition overflow_query : list float := [0x1p+30; 0]%float.

(** A storage directory whose file for ["pies"] holds one vector and no
    chunk. *)
Definition chunkless_world : world :=
  mkWorld ∅
          {[ storage_file "pies"
             := Readable (mkJson (Some "pies") (Some [[1; 0]]%float) None) ]}.

(** ** The order of floats *)

(** A key for the floats that are not NaN, ordered lexicographically as
    [<] orders the floats. *)
Definition float_key (f : spec_float) : Z * Z * Z :=
  match f with
  | S754_infinity true => (-2, 0, 0)
  | S754_finite true m e => (-1, - e, - Z.pos m)
  | S754_zero _ => (0, 0, 0)
  | S754_nan => (0, 0, 0)
  | S754_finite false m e => (1, e, Z.pos m)
  | S754_infinity false => (2, 0, 0)
  end.

Definition lexlt (a b : Z * Z * Z) : Prop :=
  a.1.1 < b.1.1
  \/ (a.1.1 = b.1.1
      /\ (a.1.2 < b.1.2 \/ (a.1.2 = b.1.2 /\ a.2 < b.2))).

(** ** The windows of the chunker in closed form *)

(** How many windows of a given step start inside a sequence of [n]
    elements: the least [m] with [m * step >= n]. *)
Definition window_count (n step : Z) : nat :=
  Z.to_nat ((n + step - 1) / step).

(** The [k]-th chunk of the character fallback over windows of [size]
    characters. *)
Definition char_window (s : str) (size step : Z) (k : nat) : Chunk :=
  let i := Z.of_nat k * step in
  mkChunk (slice s i (Z.min (i + size) (len s))) (Z.of_nat k)
          i (Z.min (i + size) (len s)).

(** The [k]-th chunk in token mode over windows of [size] tokens. *)
Definition token_window {token : Type} (decode : list token -> str)
    (tokens : list token) (size step : Z) (k : nat) : Chunk :=
  let i := Z.of_nat k * step in
  mkChunk (decode (slice tokens i (i + size))) (Z.of_nat k)
          (len (decode (slice tokens 0 i)))
          (len (decode (slice tokens 0 i))
           + len (decode (slice tokens i (i + size)))).

(** ** The life of the store *)





(** ** The service around the retrieval core

    [backend/pdf_extractor.py], [backend/embeddings.py],
    [backend/openai_client.py] and the two handlers of
    [backend/main.py]. What the handlers print is not kept. *)

(** *** More built-ins *)

Module PyStr.

Definition newline : str := [10%N].
Definition quote : str := [34%N].

(** [sep.join(parts)]. *)
Fixpoint join (sep : str) (parts : list str) : str :=
  match parts with
  | [] => []
  | p :: rest =>
      match rest with
      | [] => p
      | _ :: _ => p ++ sep ++ join sep rest
      end
  end.

(** [s.startswith(prefix)]. *)
Fixpoint startswith (s prefix : str) : bool :=
  match prefix, s with
  | [], _ => true
  | _ :: _, [] => false
  | p :: prefix', c :: s' => (c =? p)%N && startswith s' prefix'
  end.

(** [sub in s]. *)
Fixpoint contains (sub s : str) : bool :=
  startswith s sub
  || match s with
     | [] => false
     | _ :: s' => contains sub s'
     end.

(** [str(n)] of an [int], as an f-string prints it. *)
Definition str_of_int (n : Z) : str := lit (pretty n).

(** Truth value of a [str] that names a document. *)
Definition nonempty (s : string) : bool :=
  match s with
  | EmptyString => false
  | String _ _ => true
  end.

End PyStr.

Import PyStr.

(** What a call gives that may raise: its value, or [str(e)] of the
    exception [e]. The handlers read nothing else of an exception. *)
Inductive fallible (A : Type) : Type :=
| Returns (a : A)
| Raises (message : str).

Arguments Returns {A} a.
Arguments Raises {A} message.

#[global] Instance fallible_ret : MRet fallible := fun A a => Returns a.

#[global] Instance fallible_bind : MBind fallible :=
  fun A B k r =>
    match r with
    | Returns a => k a
    | Raises message => Raises message
    end.

(** *** What [json.loads] returns *)

(** A dictionary is the list of its items, each key once. *)
#[warnings="-register-all"] Inductive JSON : Type :=
| JNull
| JBool (b : bool)
| JInt (n : Z)
| JFloat (x : float)
| JStr (s : str)
| JList (items : list JSON)
| JDict (items : list (str * JSON)).

Module json.

(** [type(x).__name__]. *)
Definition type_name (x : JSON) : str :=
  match x with
  | JNull => lit "NoneType"
  | JBool _ => lit "bool"
  | JInt _ => lit "int"
  | JFloat _ => lit "float"
  | JStr _ => lit "str"
  | JList _ => lit "list"
  | JDict _ => lit "dict"
  end.

Fixpoint lookup (key : str) (items : list (str * JSON)) : option JSON :=
  match items with
  | [] => None
  | (k, v) :: rest =>
      if bool_decide ((k : list N) = key) then Some v else lookup key rest
  end.

(** [x.get(key, default)]: only a dictionary has the method. *)
Definition get (x : JSON) (key : str) (default : JSON) : fallible JSON :=
  match x with
  | JDict items =>
      Returns (match lookup key items with Some v => v | None => default end)
  | _ =>
      Raises (lit "'" ++ type_name x ++ lit "' object has no attribute 'get'")
  end.

(** [x[0]]. The keys of a dictionary read from JSON are strings, so [0]
    is none of them. *)
Definition first (x : JSON) : fallible JSON :=
  match x with
  | JList (a :: _) => Returns a
  | JList [] => Raises (lit "list index out of range")
  | JStr (c :: _) => Returns (JStr [c])
  | JStr [] => Raises (lit "string index out of range")
  | JDict _ => Raises (lit "0")
  | _ => Raises (lit "'" ++ type_name x ++ lit "' object is not subscriptable")
  end.

(** Truth value. *)
Definition truth (x : JSON) : bool :=
  match x with
  | JNull => false
  | JBool b => b
  | JInt n => negb (n =? 0)
  | JFloat x => negb (x =? 0)%float
  | JStr s => truthy s
  | JList items => truthy items
  | JDict items => truthy items
  end.

End json.

(** *** The services the code calls *)

Module httpx.

(** The response to a request: [status_code], [text], and what
    [response.json()] returns or raises. *)
Record Response : Type := mkResponse {
  status_code : Z;
  text : str;
  json : fallible JSON
}.

End httpx.

(** One entry of ["messages"], and the ["json"] of the completion
    request. *)
Record Message : Type := mkMessage {
  role : str;
  content : str
}.

Record Payload : Type := mkPayload {
  model : str;
  messages : list Message;
  temperature : float;
  max_tokens : Z
}.

(** A request that leaves the process: [client.embeddings.create] with
    its [model] and [input], or [client.post] with its URL and its
    [json]. The headers of the second are the same in every request. *)
Inductive api_call : Type :=
| embeddings_create (model : str) (input : list str)
| post (url : str) (payload : Payload).

(** The process and the requests it has sent. *)
Record server : Type := mkServer {
  db : world;
  outbound : list api_call
}.

(** A step of a handler, run from a state of the process: it returns,
    raises, or exceeds the bound on the iterations of a loop; and leaves
    the process in a state. *)
Definition service (A : Type) : Type := server -> option (fallible A) * server.

#[global] Instance service_ret : MRet service :=
  fun A a s => (Some (Returns a), s).

#[global] Instance service_bind : MBind service :=
  fun A B k m s =>
    match m s with
    | (Some (Returns a), s') => k a s'
    | (Some (Raises message), s') => (Some (Raises message), s')
    | (None, s') => (None, s')
    end.

(** A call that touches nothing of the process. *)
Definition pure {A : Type} (r : fallible A) : service A :=
  fun s => (Some r, s).

(** [raise Exception(message)]. *)
Definition raise {A : Type} (message : str) : service A :=
  pure (Raises message).

(** A loop under its bound. *)
Definition loop {A : Type} (r : run A) : service A :=
  fun s =>
    match r with
    | Returned a => (Some (Returns a), s)
    | Unfinished _ => (None, s)
    end.

(** A request and what comes back. *)
Definition send {A : Type} (r : api_call) (response : fallible A) : service A :=
  fun s => (Some response, mkServer (db s) (outbound s ++ [r])).

(** [try: m] followed by
    [except Exception as e: raise Exception(f"{prefix}{str(e)}")]. *)
Definition reraise {A : Type} (prefix : str) (m : service A) : service A :=
  fun s =>
    match m s with
    | (Some (Raises message), s') => (Some (Raises (prefix ++ message)), s')
    | other => other
    end.

(** *** schemas.py *)

Module schemas.

Record UploadResponse : Type := mkUploadResponse {
  upload_doc_id : string;
  upload_chunk_count : Z;
  upload_status : str
}.

(** The dictionary [chat] builds for a result, which [ChatResponse] reads
    as a [Source]; its three keys are always present. *)
Record Source : Type := mkSource {
  text : str;
  chunk_index : Z;
  score : float
}.

Record ChatRequest : Type := mkChatRequest {
  question : str;
  request_doc_id : string
}.

Record ChatResponse : Type := mkChatResponse {
  answer : str;
  sources : list Source
}.

Record ErrorResponse : Type := mkErrorResponse {
  error : str;
  provider : option str;
  status : option Z;
  details : option str
}.

End schemas.

(** What a handler returns: a response model, or a [JSONResponse] with
    the dictionary of an [ErrorResponse]. *)
Inductive reply (A : Type) : Type :=
| Model (body : A)
| JSONResponse (status_code : Z) (content : schemas.ErrorResponse).

Arguments Model {A} body.
Arguments JSONResponse {A} status_code content.

(** The part of an [UploadFile] that [upload_file] reads: its
    [content_type] and what [file.read()] returns. *)
Record UploadFile : Type := mkUploadFile {
  content_type : option str;
  read : list Byte.byte
}.

Definition EMBEDDING_MODEL : str := lit "text-embedding-3-small".
Definition OPENAI_MODEL : str := lit "gpt-4o".
Definition OPENAI_BASE_URL : str :=
  lit "https://api.openai.com/v1/chat/completions".
Definition MAX_SIZE : Z := 50 * 1024 * 1024.
Definition MAX_CONTEXT_LENGTH : Z := 10000.

(** The reply of [generate_answer] and of [chat] when nothing was
    retrieved. *)
Definition NO_INFORMATION : str :=
  lit "I couldn't find any relevant information in the document to answer your question.".

Definition system_prompt : str :=
  lit "You are a helpful assistant that answers questions based ONLY on the provided context from a document. "
  ++ newline
  ++ lit "Rules:"
  ++ newline
  ++ lit "- Answer the question using ONLY the information provided in the context below."
  ++ newline
  ++ lit "- If the context does not contain enough information to answer the question, say "
  ++ quote
  ++ lit "I don't have enough information in the document to answer this question."
  ++ quote
  ++ newline
  ++ lit "- Do not make up information or use knowledge outside the provided context."
  ++ newline
  ++ lit "- If you reference specific information, mention which context section it came from (e.g., "
  ++ quote
  ++ lit "According to Context 1..."
  ++ quote
  ++ lit ")."
  ++ newline
  ++ lit "- Be concise but complete.".

(** The separator between the retrieved texts of a context. *)
Definition CONTEXT_SEPARATOR : str :=
  newline ++ newline ++ lit "---" ++ newline ++ newline.

Definition user_prompt (context question : str) : str :=
  lit "Context from document:" ++ newline ++ newline
  ++ context
  ++ newline ++ newline ++ lit "Question: " ++ question
  ++ newline ++ newline ++ lit "Answer:".

Section Service.

Context {token : Type}.

(** The tokenizer of [chunk_text]. *)
Variable encode : str -> option (list token).
Variable decode : list token -> str.

(** PyPDF2: [PdfReader] on the bytes of a file raises, or gives the
    pages; [extract_text()] on a page raises, or gives its text. *)
Variable PdfReader : list Byte.byte -> fallible (list (fallible str)).

(** The embeddings endpoint: for a [model] and an [input], the
    [embedding] of each item of [response.data], or the exception of the
    client. *)
Variable client_embeddings_create :
  str -> list str -> fallible (list (list float)).

(** The completion endpoint: for a URL and a [json], the response, or the
    exception of the client. *)
Variable client_post : str -> Payload -> fallible httpx.Response.

(** [str(e)] of an exception of the vector store. *)
Variable str_of_exn : exn -> str.

(** The storage directory: whether [open(path, 'w')] gives a file or
    raises. *)
Variable writable : string -> bool.

(** What pydantic makes of an [answer] that is not a [str]. *)
Variable validate_answer : JSON -> fallible str.

(** **** pdf_extractor.py *)

(** The loop over [pdf_reader.pages]. *)
Fixpoint page_texts (pages : list (fallible str)) (text_parts : list str)
  : fallible (list str) :=
  match pages with
  | [] => Returns text_parts
  | page :: pages' =>
      page_text ← page;
      let text_parts :=
        if truthy page_text then text_parts ++ [page_text] else text_parts in
      page_texts pages' text_parts
  end.

Definition extract_text_from_pdf (pdf_bytes : list Byte.byte)
  : fallible (str * Z) :=
  let body :=
    pdf_reader ← PdfReader pdf_bytes;
    text_parts ← page_texts pdf_reader [];
    let text := join (newline ++ newline) text_parts in
    let page_count := len pdf_reader in
    if negb (truthy text) || (len (strip text) =? 0) then
      Raises (lit "PDF appears to be empty or contains no extractable text")
    else Returns (text, page_count) in
  match body with
  | Returns r => Returns r
  | Raises message =>
      Raises (lit "Failed to extract text from PDF: " ++ message)
  end.

(** **** embeddings.py *)

Definition create_embeddings (texts : list str)
  : service (list (list float)) :=
  if negb (truthy texts) then mret []
  else
    reraise (lit "Failed to create embeddings: ")
      (send (embeddings_create EMBEDDING_MODEL texts)
            (client_embeddings_create EMBEDDING_MODEL texts)).

Definition create_embedding (text : str) : service (list float) :=
  embeddings ← create_embeddings [text];
  mret (match embeddings with
        | e :: _ => e
        | [] => []
        end).

(** **** openai_client.py *)

(** The context that [generate_answer] builds when it is given none. A
    chunk of [chat] has no ["page"], so [page_info] is empty. *)
Definition context_of_chunks (chunks : list schemas.Source) : str :=
  let context_parts :=
    imap (fun idx chunk =>
            let page_info : str := [] in
            lit "[Context " ++ str_of_int (Z.of_nat idx + 1) ++ page_info
            ++ lit "]:" ++ newline ++ schemas.text chunk)
         chunks in
  join CONTEXT_SEPARATOR context_parts.

Definition generate_answer (question : str) (chunks : list schemas.Source)
    (context_text : option str) : service JSON :=
  if len chunks =? 0 then mret (JStr NO_INFORMATION)
  else
    let context :=
      match context_text with
      | Some c => if truthy c then c else context_of_chunks chunks
      | None => context_of_chunks chunks
      end in
    let payload :=
      mkPayload OPENAI_MODEL
                [mkMessage (lit "system") system_prompt;
                 mkMessage (lit "user") (user_prompt context question)]
                0x1.3333333333333p-2%float
                1000 in
    response ← send (post OPENAI_BASE_URL payload)
                    (client_post OPENAI_BASE_URL payload);
    let response_text := httpx.text response in
    if httpx.status_code response >=? 400 then
      raise (lit "OpenAI API failed: "
             ++ str_of_int (httpx.status_code response)
             ++ lit " " ++ response_text)
    else
      answer ← pure (data ← httpx.json response;
                     choices ← json.get data (lit "choices") (JList [JDict []]);
                     choice ← json.first choices;
                     message ← json.get choice (lit "message") (JDict []);
                     json.get message (lit "content") JNull);
      if negb (json.truth answer) then
        raise (lit "OpenAI did not return a valid answer")
      else mret answer.

(** **** main.py *)

(** A call of the vector store, which works on the registry and the
    storage directory. *)
Definition store {A : Type} (call : world -> result A * world) : service A :=
  fun s =>
    let '(r, w) := call (db s) in
    (Some (match r with
           | Ok a => Returns a
           | Raise e => Raises (str_of_exn e)
           end),
     mkServer w (outbound s)).

(** The body of the [try] of [upload_file] after the two checks.
    [extracted] is the pair of the text and the page count, and [uuid4]
    is what [str(uuid.uuid4())] gives in this call. Every chunk has its
    ["text"], and [chunk_text] lets no exception escape. *)
Definition upload_steps (fuel : nat) (contents : list Byte.byte)
    (uuid4 : string) : service schemas.UploadResponse :=
  extracted ← reraise (lit "PDF extraction failed: ")
                      (pure (extract_text_from_pdf contents));
  chunks ← reraise (lit "Text chunking failed: ")
                   (loop (chunk_text encode decode fuel (fst extracted)
                                     CHUNK_SIZE_TOKENS CHUNK_OVERLAP_TOKENS));
  if len chunks =? 0 then
    raise (lit "No chunks created from PDF. PDF may be empty or unreadable.")
  else
    embeddings ← reraise (lit "Embedding creation failed: ")
                         (let chunk_texts := map text chunks in
                          create_embeddings chunk_texts);
    chunk_count ← reraise (lit "Vector storage failed: ")
                          (let doc_id := uuid4 in
                           store (store_document writable doc_id chunks
                                                 embeddings));
    mret (schemas.mkUploadResponse uuid4 chunk_count (lit "ready")).

Definition upload_file (fuel : nat) (file : UploadFile) (uuid4 : string)
    (s : server) : option (reply schemas.UploadResponse) * server :=
  if negb (bool_decide (content_type file = Some (lit "application/pdf"))) then
    (Some (JSONResponse 400
             (schemas.mkErrorResponse (lit "File must be a PDF")
                                      (Some (lit "Server")) (Some 400) None)),
     s)
  else
    let contents := read file in
    if len contents >? MAX_SIZE then
      (Some (JSONResponse 400
               (schemas.mkErrorResponse
                  (lit "File size exceeds limit of 50.0MB")
                  (Some (lit "Server")) (Some 400) None)),
       s)
    else
      match upload_steps fuel contents uuid4 s with
      | (Some (Returns response), s') => (Some (Model response), s')
      | (Some (Raises error_message), s') =>
          (Some (JSONResponse 500
                   (schemas.mkErrorResponse
                      (lit "Upload and indexing failed")
                      (Some (lit "Server")) (Some 500)
                      (Some error_message))),
           s')
      | (None, s') => (None, s')
      end.

(** [ChatResponse(answer=answer, sources=sources)]. *)
Definition ChatResponse (answer : JSON) (sources : list schemas.Source)
  : fallible schemas.ChatResponse :=
  answer ← match answer with
           | JStr s => Returns s
           | _ => validate_answer answer
           end;
  mret (schemas.mkChatResponse answer sources).

(** The body of the [try] of [chat]. *)
Definition chat_steps (request : schemas.ChatRequest)
  : service (reply schemas.ChatResponse) :=
  let question := schemas.question request in
  let doc_id := schemas.request_doc_id request in
  if negb (truthy question) || negb (nonempty doc_id) then
    mret (JSONResponse 400
            (schemas.mkErrorResponse (lit "question and doc_id are required")
                                     (Some (lit "Server")) (Some 400) None))
  else
    query_embedding ← reraise (lit "Query embedding failed: ")
                              (create_embedding question);
    let top_k := 5 in
    search_results ← reraise (lit "Vector search failed: ")
                             (store (search_document doc_id query_embedding
                                                     top_k));
    if len search_results =? 0 then
      mret (Model (schemas.mkChatResponse NO_INFORMATION []))
    else
      let sources :=
        map (fun result : Source =>
               schemas.mkSource (source_text result)
                                (source_chunk_index result)
                                (source_score result))
            search_results in
      let context_parts := map source_text search_results in
      let context_text := join CONTEXT_SEPARATOR context_parts in
      let trim := len context_text >? MAX_CONTEXT_LENGTH in
      let context_text :=
        if trim then
          slice context_text 0 MAX_CONTEXT_LENGTH ++ lit "... [truncated]"
        else context_text in
      let sources := if trim then slice sources 0 top_k else sources in
      answer ← reraise (lit "Answer generation failed: ")
                       (generate_answer question sources (Some context_text));
      response ← pure (ChatResponse answer sources);
      mret (Model response).

Definition chat (request : schemas.ChatRequest) (s : server)
  : option (reply schemas.ChatResponse) * server :=
  match chat_steps request s with
  | (Some (Returns response), s') => (Some response, s')
  | (Some (Raises error_message), s') =>
      (Some (JSONResponse 500
               (schemas.mkErrorResponse
                  (lit "Chat request failed")
                  (Some (if contains (lit "OpenAI") error_message
                         then lit "OpenAI" else lit "Server"))
                  (Some 500)
                  (Some error_message))),
       s')
  | (None, s') => (None, s')
  end.

End Service.

(** ** A small service to run the handlers on *)

(** A PDF reader that finds two pages, the first of which holds no
    text. *)
Definition two_pages : list Byte.byte -> fallible (list (fallible str)) :=
  fun _ => Returns [Returns []; Returns (lit "apple pie")].

(** An embeddings endpoint that gives the same vector for every text, and
    one that cannot be reached. *)
Definition unit_embeddings : str -> list str -> fallible (list (list float)) :=
  fun _ texts => Returns (map (fun _ => [1; 0]%float) texts).

Definition no_embeddings : str -> list str -> fallible (list (list float)) :=
  fun _ _ => Raises (lit "Connection error.").

(** A completion endpoint that refuses, and one that answers. *)
Definition refusal : httpx.Response :=
  httpx.mkResponse 429 (lit "Too Many Requests")
                   (Raises (lit "Expecting value: line 1 column 1 (char 0)")).

Definition refusing_post : str -> Payload -> fallible httpx.Response :=
  fun _ _ => Returns refusal.

Definition completion : httpx.Response :=
  httpx.mkResponse 200 []
    (Returns
       (JDict [(lit "id", JStr (lit "chatcmpl-1"));
               (lit "choices",
                JList [JDict [(lit "index", JInt 0);
                              (lit "message",
                               JDict [(lit "role", JStr (lit "assistant"));
                                      (lit "content",
                                       JStr (lit "Apple."))])]])])).

Definition answering_post : str -> Payload -> fallible httpx.Response :=
  fun _ _ => Returns completion.

(** One whose answer holds no choice. *)
Definition no_choices : httpx.Response :=
  httpx.mkResponse 200 [] (Returns (JDict [(lit "choices", JList [])])).

Definition empty_post : str -> Payload -> fallible httpx.Response :=
  fun _ _ => Returns no_choices.

(** The text of the exceptions of the store, and pydantic's answer to a
    value that is no string. *)
Definition index_text : exn -> str := fun _ => lit "list index out of range".

Definition string_expected : JSON -> fallible str :=
  fun _ => Raises (lit "Input should be a valid string").

(** An upload and a question. *)
Definition pie_file : UploadFile :=
  mkUploadFile (Some (lit "application/pdf")) [].

Definition pie_question : schemas.ChatRequest :=
  schemas.mkChatRequest (lit "Which pie?") "pies".

(** What a search of the query finds in [pie_world]. *)
Definition pie_results : list Source :=
  match fst (search_document "pies" pie_query 5 pie_world) with
  | Ok results => results
  | Raise _ => []
  end.

(** * Properties *)

(** ** Slices *)

Section SliceFacts.

Context {A : Type}.
Implicit Types l : list A.

Lemma len_nonneg l : 0 <= len l.
Proof. unfold len. lia. Qed.

Lemma len_app l1 l2 : len (l1 ++ l2) = len l1 + len l2.
Proof. unfold len. rewrite length_app. lia. Qed.

Lemma len_zero_nil l : len l = 0 -> l = [].
Proof. destruct l; [reflexivity | unfold len; simpl; lia]. Qed.

(** With both bounds inside the sequence a slice is the usual segment. *)
Lemma slice_segment l a b :
  0 <= a -> a <= b -> b <= len l ->
  slice l a b = take (Z.to_nat (b - a)) (drop (Z.to_nat a) l).
Proof.
  intros Ha Hab Hb. unfold slice, slice_index.
  destruct (Z.ltb_spec a 0); [lia |].
  destruct (Z.ltb_spec b 0); [lia |].
  rewrite !Z.min_l by lia. reflexivity.
Qed.

Lemma len_slice l a b :
  0 <= a -> a <= b -> b <= len l -> len (slice l a b) = b - a.
Proof.
  intros Ha Hab Hb. rewrite slice_segment by assumption.
  unfold len in *. rewrite length_take, length_drop. lia.
Qed.

(** A stop bound past the end is the end. *)
Lemma slice_stop_past l a b :
  0 <= a -> len l <= b -> slice l a b = slice l a (len l).
Proof.
  intros Ha Hb. unfold slice, slice_index.
  destruct (Z.ltb_spec b 0); [pose proof (len_nonneg l); lia |].
  destruct (Z.ltb_spec (len l) 0); [pose proof (len_nonneg l); lia |].
  rewrite (Z.min_r b) by lia. rewrite (Z.min_l (len l)) by lia. reflexivity.
Qed.

Lemma slice_all l b : len l <= b -> slice l 0 b = l.
Proof.
  intros Hb. rewrite slice_stop_past by (assumption || lia).
  rewrite slice_segment by (pose proof (len_nonneg l); lia).
  simpl. rewrite Z.sub_0_r. unfold len. rewrite Nat2Z.id.
  apply firstn_all.
Qed.




End SliceFacts.

(** ** Runs of the chunker *)

Example chunk_text_abc :
  chunk_text char_encode char_decode 5 (lit "abcde") 3 1
  = Returned [mkChunk (lit "abc") 0 0 3; mkChunk (lit "cde") 1 2 5;
              mkChunk (lit "e") 2 4 5].
Proof. reflexivity. Qed.

Lemma numbered_snoc (chunks : list Chunk) (c : Chunk) :
  numbered chunks -> chunk_index c = len chunks -> numbered (chunks ++ [c]).
Proof.
  unfold numbered, len. intros Hn Hc.
  rewrite map_app, length_app, seq_app, map_app, Hn. simpl.
  rewrite Hc. reflexivity.
Qed.


Section ChunkerFacts.

Context {token : Type}.
Variable encode : str -> option (list token).
Variable decode : list token -> str.

(** *** One unfolding of each loop *)

Lemma token_loop_unfold fuel (tokens : list token) cs ov i idx chunks :
  token_loop decode fuel tokens cs ov i idx chunks =
  if i <? len tokens then
    match fuel with
    | O => Unfinished chunks
    | S fuel' =>
        let chunks' :=
          chunks ++ [mkChunk (decode (slice tokens i (i + cs))) idx
                             (len (decode (slice tokens 0 i)))
                             (len (decode (slice tokens 0 i))
                              + len (decode (slice tokens i (i + cs))))] in
        if i + (cs - ov) >=? len tokens then Returned chunks'
        else token_loop decode fuel' tokens cs ov
               (if i + (cs - ov) =? 0 then cs - ov else i + (cs - ov))
               (idx + 1) chunks'
    end
  else Returned chunks.
Proof. destruct fuel; reflexivity. Qed.

Lemma char_loop_unfold fuel (s : str) cs ov i idx chunks :
  char_loop fuel s cs ov i idx chunks =
  if i <? len s then
    match fuel with
    | O => Unfinished chunks
    | S fuel' =>
        let chunks' :=
          chunks ++ [mkChunk (slice s i (Z.min (i + cs) (len s))) idx
                             i (Z.min (i + cs) (len s))] in
        if i + (cs - ov) >=? len s then Returned chunks'
        else char_loop fuel' s cs ov
               (if i + (cs - ov) =? 0 then cs - ov else i + (cs - ov))
               (idx + 1) chunks'
    end
  else Returned chunks.
Proof. destruct fuel; reflexivity. Qed.

(** *** Offsets and indices of the emitted chunks *)

Lemma token_loop_shape fuel (tokens : list token) cs ov :
  forall i idx chunks,
    idx = len chunks -> Forall span_is_text chunks -> numbered chunks ->
    Forall span_is_text (produced (token_loop decode fuel tokens cs ov i idx chunks))
    /\ numbered (produced (token_loop decode fuel tokens cs ov i idx chunks)).
Proof.
  induction fuel as [| fuel IH]; intros i idx chunks Hidx Hspan Hnum;
    rewrite token_loop_unfold; destruct (i <? len tokens); simpl; auto.
  set (c := mkChunk _ _ _ _).
  assert (Hspan' : Forall span_is_text (chunks ++ [c])).
  { apply Forall_app; split; [assumption |].
    constructor; [reflexivity | constructor]. }
  assert (Hnum' : numbered (chunks ++ [c])) by (apply numbered_snoc; assumption).
  destruct (_ >=? _); simpl; [auto |].
  apply IH; [rewrite len_app; unfold len at 2; simpl; lia | assumption ..].
Qed.

Lemma char_loop_shape fuel (s : str) cs ov :
  0 <= cs -> 0 <= cs - ov ->
  forall i idx chunks,
    0 <= i ->
    idx = len chunks -> Forall span_is_text chunks -> numbered chunks ->
    Forall span_is_text (produced (char_loop fuel s cs ov i idx chunks))
    /\ numbered (produced (char_loop fuel s cs ov i idx chunks)).
Proof.
  intros Hcs Hstep.
  induction fuel as [| fuel IH]; intros i idx chunks Hi Hidx Hspan Hnum;
    rewrite char_loop_unfold; destruct (Z.ltb_spec i (len s)); simpl; auto.
  set (c := mkChunk _ _ _ _).
  assert (Hspan' : Forall span_is_text (chunks ++ [c])).
  { apply Forall_app; split; [assumption |].
    constructor; [| constructor].
    unfold span_is_text, c; simpl. rewrite len_slice by lia. lia. }
  assert (Hnum' : numbered (chunks ++ [c])) by (apply numbered_snoc; assumption).
  destruct (_ >=? _); simpl; [auto |].
  apply IH; [| rewrite len_app; unfold len at 2; simpl; lia | assumption ..].
  destruct (_ =? _); lia.
Qed.

(** *** Progress *)

Lemma token_loop_returns fuel (tokens : list token) cs ov :
  0 < cs - ov ->
  forall i idx chunks,
    (Z.to_nat (len tokens - i) <= fuel)%nat ->
    exists out, token_loop decode fuel tokens cs ov i idx chunks = Returned out.
Proof.
  intros Hstep.
  induction fuel as [| fuel IH]; intros i idx chunks Hfuel;
    rewrite token_loop_unfold; destruct (Z.ltb_spec i (len tokens));
    eauto; [lia |].
  cbv zeta. destruct (_ >=? _) eqn:Hge; [eauto |].
  apply IH. destruct (Z.eqb_spec (i + (cs - ov)) 0); lia.
Qed.

Lemma char_loop_returns fuel (s : str) cs ov :
  0 < cs - ov ->
  forall i idx chunks,
    (Z.to_nat (len s - i) <= fuel)%nat ->
    exists out, char_loop fuel s cs ov i idx chunks = Returned out.
Proof.
  intros Hstep.
  induction fuel as [| fuel IH]; intros i idx chunks Hfuel;
    rewrite char_loop_unfold; destruct (Z.ltb_spec i (len s));
    eauto; [lia |].
  cbv zeta. destruct (_ >=? _) eqn:Hge; [eauto |].
  apply IH. destruct (Z.eqb_spec (i + (cs - ov)) 0); lia.
Qed.

(** A run that returned returns the same with a larger bound. *)
Lemma token_loop_more_fuel fuel (tokens : list token) cs ov :
  forall fuel' i idx chunks out,
    token_loop decode fuel tokens cs ov i idx chunks = Returned out ->
    (fuel <= fuel')%nat ->
    token_loop decode fuel' tokens cs ov i idx chunks = Returned out.
Proof.
  induction fuel as [| fuel IH]; intros fuel' i idx chunks out;
    rewrite !token_loop_unfold; destruct (i <? len tokens);
    intros Hrun Hle; try assumption; try discriminate.
  destruct fuel' as [| fuel']; [lia |]. cbv zeta in *.
  destruct (_ >=? _); [assumption |]. apply IH; [assumption | lia].
Qed.

Lemma char_loop_more_fuel fuel (s : str) cs ov :
  forall fuel' i idx chunks out,
    char_loop fuel s cs ov i idx chunks = Returned out ->
    (fuel <= fuel')%nat ->
    char_loop fuel' s cs ov i idx chunks = Returned out.
Proof.
  induction fuel as [| fuel IH]; intros fuel' i idx chunks out;
    rewrite !char_loop_unfold; destruct (i <? len s);
    intros Hrun Hle; try assumption; try discriminate.
  destruct fuel' as [| fuel']; [lia |]. cbv zeta in *.
  destruct (_ >=? _); [assumption |]. apply IH; [assumption | lia].
Qed.

(** With [overlap >= chunk_size] the window start never gets past [0]:
    the check [if i == 0] assigns the step, which is not positive, and
    every iteration appends one more chunk. *)
Lemma token_loop_stalls fuel (tokens : list token) cs ov :
  cs <= ov -> tokens <> [] ->
  forall i idx chunks,
    i <= 0 ->
    exists partial,
      token_loop decode fuel tokens cs ov i idx chunks = Unfinished partial
      /\ length partial = (length chunks + fuel)%nat.
Proof.
  intros Hstep Hne.
  assert (Hlen : 0 < len tokens).
  { destruct tokens; [congruence | unfold len; simpl; lia]. }
  induction fuel as [| fuel IH]; intros i idx chunks Hi;
    rewrite token_loop_unfold; destruct (Z.ltb_spec i (len tokens)); try lia.
  - eexists; split; [reflexivity | lia].
  - cbv zeta. destruct (Z.geb_spec (i + (cs - ov)) (len tokens)); [lia |].
    set (i' := if _ =? _ then _ else _).
    destruct (IH i' (idx + 1) (chunks ++ [mkChunk (decode (slice tokens i (i + cs))) idx
                             (len (decode (slice tokens 0 i)))
                             (len (decode (slice tokens 0 i))
                              + len (decode (slice tokens i (i + cs))))]))
      as (partial & Hrun & Hcount).
    { unfold i'. destruct (Z.eqb_spec (i + (cs - ov)) 0); lia. }
    exists partial. split; [exact Hrun |].
    rewrite Hcount, length_app. simpl. lia.
Qed.

(** *** Coverage *)



(** *** [chunk_text] *)

Lemma chunk_text_blank fuel (s : str) cs ov :
  is_blank s = true -> chunk_text encode decode fuel s cs ov = Returned [].
Proof. unfold is_blank, chunk_text. intros ->. reflexivity. Qed.

Lemma chunk_text_token_mode fuel (s : str) cs ov tokens :
  is_blank s = false -> encode s = Some tokens ->
  chunk_text encode decode fuel s cs ov
  = token_loop decode fuel tokens cs ov 0 0 [].
Proof. unfold is_blank, chunk_text. intros -> ->. reflexivity. Qed.

Lemma chunk_text_char_mode fuel (s : str) cs ov :
  is_blank s = false -> encode s = None ->
  chunk_text encode decode fuel s cs ov
  = char_loop fuel s CHUNK_SIZE_CHARS CHUNK_OVERLAP_CHARS 0 0 [].
Proof. unfold is_blank, chunk_text. intros -> ->. reflexivity. Qed.

(** With a positive step the call returns, and returns the same chunks
    under every larger bound on the iterations. *)
Lemma chunk_text_returns (s : str) cs ov :
  0 < cs - ov ->
  exists fuel chunks, forall fuel',
    (fuel <= fuel')%nat ->
    chunk_text encode decode fuel' s cs ov = Returned chunks.
Proof.
  intros Hstep. destruct (is_blank s) eqn:Hblank.
  - exists 0%nat, []. intros. apply chunk_text_blank. assumption.
  - destruct (encode s) as [tokens |] eqn:Henc.
    + destruct (token_loop_returns (length tokens) tokens cs ov Hstep 0 0 [])
        as [out Hout]; [unfold len; lia |].
      exists (length tokens), out. intros fuel' Hle.
      rewrite (chunk_text_token_mode _ _ _ _ tokens) by assumption.
      eapply token_loop_more_fuel; eassumption.
    + destruct (char_loop_returns (length s) s CHUNK_SIZE_CHARS
                  CHUNK_OVERLAP_CHARS eq_refl 0 0 [])
        as [out Hout]; [unfold len; lia |].
      exists (length s), out. intros fuel' Hle.
      rewrite chunk_text_char_mode by assumption.
      eapply char_loop_more_fuel; eassumption.
Qed.


End ChunkerFacts.

(** ** The chunker's claims *)


(** C10: every chunk that [chunk_text] emits, in token mode and in the
    character fallback alike, has [end_char = start_char + len(text)],
    and the [chunk_index] of each chunk is its zero-based position in the
    sequence. This holds of the chunks of a returned sequence and of those
    emitted so far by a run that has not returned. *)
Theorem chunk_text_offsets_and_indices
    {token : Type} (encode : str -> option (list token))
    (decode : list token -> str) (fuel : nat) (s : str) (cs ov : Z) :
  Forall span_is_text (produced (chunk_text encode decode fuel s cs ov))
  /\ numbered (produced (chunk_text encode decode fuel s cs ov)).
Proof.
  destruct (is_blank s) eqn:Hblank.
  - rewrite chunk_text_blank by assumption. split; [constructor | reflexivity].
  - destruct (encode s) as [tokens |] eqn:Henc.
    + rewrite (chunk_text_token_mode _ _ _ _ _ _ tokens) by assumption.
      apply token_loop_shape; [reflexivity | constructor | reflexivity].
    + rewrite chunk_text_char_mode by assumption.
      apply char_loop_shape;
        try (unfold CHUNK_OVERLAP_CHARS, CHUNK_SIZE_CHARS; lia);
        [reflexivity | constructor | reflexivity].
Qed.



(** C7, as amended: [chunk_text] of the empty string returns the empty
    sequence; and for a text that is not blank and is no longer than one
    step of the window ([chunk_size - overlap] tokens with a non-negative
    overlap in token mode, [CHUNK_SIZE_CHARS - CHUNK_OVERLAP_CHARS]
    characters in the fallback), it returns exactly one chunk, with index
    [0], whose text is the whole input (in token mode: the decoding of all
    its tokens, which is the input when the tokenizer round-trips it). *)
Theorem chunk_text_short_text
    {token : Type} (encode : str -> option (list token))
    (decode : list token -> str) (fuel : nat) (s : str) (cs ov : Z) :
  is_blank s = false ->
  match encode s with
  | Some tokens =>
      tokens <> [] /\ 0 <= ov /\ len tokens <= cs - ov /\ decode tokens = s
  | None => len s <= CHUNK_SIZE_CHARS - CHUNK_OVERLAP_CHARS
  end ->
  chunk_text encode decode fuel [] cs ov = Returned []
  /\ exists c,
       chunk_text encode decode (S fuel) s cs ov = Returned [c]
       /\ text c = s /\ chunk_index c = 0
       /\ end_char c = start_char c + len s.
Proof.
  intros Hblank Hmode. split; [reflexivity |].
  destruct (encode s) as [tokens |] eqn:Henc.
  - destruct Hmode as (Hne & Hov & Hshort & Hdec).
    rewrite (chunk_text_token_mode _ _ _ _ _ _ tokens) by assumption.
    rewrite token_loop_unfold.
    assert (Hlen : 0 < len tokens).
    { destruct tokens; [congruence | unfold len; simpl; lia]. }
    destruct (Z.ltb_spec 0 (len tokens)); [| lia].
    cbv zeta. destruct (Z.geb_spec (0 + (cs - ov)) (len tokens)); [| lia].
    eexists. split; [reflexivity |]. simpl.
    rewrite slice_all by lia. rewrite Hdec. auto.
  - rewrite chunk_text_char_mode by assumption.
    rewrite char_loop_unfold.
    assert (Hlen : 0 < len s).
    { destruct s; [discriminate Hblank | unfold len; simpl; lia]. }
    unfold CHUNK_SIZE_CHARS, CHUNK_OVERLAP_CHARS in *.
    destruct (Z.ltb_spec 0 (len s)); [| lia].
    cbv zeta. destruct (Z.geb_spec (0 + (4000 - 500)) (len s)); [| lia].
    eexists. split; [reflexivity |]. simpl.
    rewrite Z.min_r by lia. rewrite slice_all by lia. auto.
Qed.

Lemma chunk_text_short_text_witness :
  is_blank (lit "apple pie") = false
  /\ len (lit "apple pie") <= CHUNK_SIZE_CHARS - CHUNK_OVERLAP_CHARS
  /\ chunk_text no_encode char_decode 0 [] 1000 150 = Returned []
  /\ exists c,
       chunk_text no_encode char_decode 1 (lit "apple pie") 1000 150
       = Returned [c]
       /\ text c = lit "apple pie" /\ chunk_index c = 0
       /\ end_char c = start_char c + len (lit "apple pie").
Proof.
  split; [reflexivity |]. split; [vm_compute; discriminate |].
  apply (chunk_text_short_text no_encode char_decode 0 (lit "apple pie") 1000 150);
    [reflexivity | vm_compute; discriminate].
Defined.

(** C7 as stated fails: in the character fallback a text of 3600
    characters is shorter than the 4000-character window and comes back as
    two chunks, the second one inside the first. *)
Lemma chunk_text_short_text_two_chunks :
  len (repeat 97%N 3600) < CHUNK_SIZE_CHARS
  /\ option_map (map (fun c => (chunk_index c, start_char c, end_char c)))
       (returned (chunk_text no_encode char_decode 2 (repeat 97%N 3600)
                             CHUNK_SIZE_CHARS CHUNK_OVERLAP_CHARS))
     = Some [(0, 0, 3600); (1, 3500, 3600)].
Proof. split; vm_compute; reflexivity. Qed.

(** A text of white space only is not empty, and yields no chunk. *)
Example chunk_text_spaces :
  chunk_text char_encode char_decode 1 (lit "  ") 1000 150 = Returned [].
Proof. reflexivity. Qed.

(** The same with the defaults scaled down, in token mode: five tokens,
    a window of ten and an overlap of eight. *)
Example chunk_text_short_tokens :
  option_map (map (fun c => (chunk_index c, start_char c, end_char c)))
    (returned (chunk_text char_encode char_decode 5 (lit "abcde") 10 8))
  = Some [(0, 0, 5); (1, 2, 5); (2, 4, 5)].
Proof. reflexivity. Qed.

(** C1, where the code fails it: when the tokenizer yields at least one
    token and [overlap >= chunk_size], the loop never leaves window start
    [0] (or moves backwards) and [chunk_text] does not return, whatever
    the number of iterations it is given; each iteration appends one more
    chunk. *)
Theorem chunk_text_stalls
    {token : Type} (encode : str -> option (list token))
    (decode : list token -> str) (s : str) (tokens : list token)
    (cs ov : Z) (fuel : nat) :
  is_blank s = false -> encode s = Some tokens -> tokens <> [] ->
  cs <= ov ->
  exists partial,
    chunk_text encode decode fuel s cs ov = Unfinished partial
    /\ length partial = fuel.
Proof.
  intros Hblank Henc Hne Hstep.
  rewrite (chunk_text_token_mode _ _ _ _ _ _ tokens) by assumption.
  destruct (token_loop_stalls decode fuel tokens cs ov Hstep Hne 0 0 [])
    as (partial & Hrun & Hcount); [lia |].
  exists partial. split; [exact Hrun | exact Hcount].
Qed.

Lemma chunk_text_stalls_witness :
  is_blank (lit "a") = false
  /\ char_encode (lit "a") = Some (lit "a") /\ lit "a" <> []
  /\ 150 <= 150
  /\ exists partial,
       chunk_text char_encode char_decode 1000 (lit "a") 150 150
       = Unfinished partial
       /\ length partial = 1000%nat.
Proof.
  split; [reflexivity |]. split; [reflexivity |].
  split; [discriminate |]. split; [lia |].
  apply (chunk_text_stalls char_encode char_decode (lit "a") (lit "a")
           150 150 1000);
    [reflexivity | reflexivity | discriminate | lia].
Defined.

(** ** The order of [float64] scores *)

Module FloatOrder.

Lemma SFltb_key (f g : spec_float) :
  f <> S754_nan -> g <> S754_nan ->
  (SFltb f g = true <-> lexlt (float_key f) (float_key g)).
Proof.
  intros Hf Hg. unfold SFltb, SFcompare, lexlt, float_key.
  destruct f as [[|] | [|] | | [|] mf ef], g as [[|] | [|] | | [|] mg eg];
    try congruence; simpl;
    try (split; [intros ?; lia || discriminate | intros ?; reflexivity || lia]);
    change (Pos.compare_cont Eq mf mg) with (Pos.compare mf mg);
    destruct (Z.compare_spec ef eg); try destruct (Pos.compare_spec mf mg);
    simpl; split; intros ?; try discriminate; try reflexivity; lia.
Qed.

Lemma SFltb_nan_l (g : spec_float) : SFltb S754_nan g = false.
Proof. reflexivity. Qed.

Lemma SFltb_nan_r (f : spec_float) : SFltb f S754_nan = false.
Proof. destruct f as [| | | [|] ? ?]; reflexivity. Qed.

Lemma Prim2SF_nan (x : float) :
  Prim2SF x = S754_nan <-> PrimFloat.is_nan x = true.
Proof.
  unfold Prim2SF. destruct (PrimFloat.is_nan x); [tauto |].
  split; [| discriminate].
  destruct (is_zero x); [discriminate |].
  destruct (is_infinity x); [discriminate |].
  destruct (Z.frexp x) as [r e].
  destruct (shr_fexp _ _ _ _ _) as [mrs e'].
  destruct (shr_m mrs); discriminate.
Qed.

Lemma Prim2SF_not_nan (x : float) :
  PrimFloat.is_nan x = false -> Prim2SF x <> S754_nan.
Proof. intros Hx Hnan. apply Prim2SF_nan in Hnan. congruence. Qed.

(** [<] is asymmetric on all floats. *)
Lemma ltb_asym (x y : float) : (x <? y)%float = true -> (y <? x)%float = false.
Proof.
  rewrite !FloatAxioms.ltb_spec. intros Hlt.
  destruct (PrimFloat.is_nan x) eqn:Hx.
  { apply Prim2SF_nan in Hx. rewrite Hx in Hlt. discriminate Hlt. }
  destruct (PrimFloat.is_nan y) eqn:Hy.
  { apply Prim2SF_nan in Hy. rewrite Hy. reflexivity. }
  apply Prim2SF_not_nan in Hx, Hy.
  apply SFltb_key in Hlt; try assumption.
  destruct (SFltb (Prim2SF y) (Prim2SF x)) eqn:Hgt; [| reflexivity].
  apply SFltb_key in Hgt; try assumption.
  unfold lexlt in *. lia.
Qed.

(** Not being less is transitive through a float that is not NaN. *)
Lemma ltb_negtrans (x y z : float) :
  PrimFloat.is_nan y = false ->
  (x <? y)%float = false -> (y <? z)%float = false -> (x <? z)%float = false.
Proof.
  rewrite !FloatAxioms.ltb_spec. intros Hy Hxy Hyz.
  destruct (PrimFloat.is_nan x) eqn:Hx.
  { apply Prim2SF_nan in Hx. rewrite Hx. reflexivity. }
  destruct (PrimFloat.is_nan z) eqn:Hz.
  { apply Prim2SF_nan in Hz. rewrite Hz. apply SFltb_nan_r. }
  apply Prim2SF_not_nan in Hx, Hy, Hz.
  destruct (SFltb (Prim2SF x) (Prim2SF z)) eqn:Hxz; [| reflexivity].
  apply SFltb_key in Hxz; try assumption.
  assert (Hxy' : ~ lexlt (float_key (Prim2SF x)) (float_key (Prim2SF y))).
  { intros H. apply SFltb_key in H; try assumption. congruence. }
  assert (Hyz' : ~ lexlt (float_key (Prim2SF y)) (float_key (Prim2SF z))).
  { intros H. apply SFltb_key in H; try assumption. congruence. }
  unfold lexlt in *. lia.
Qed.

End FloatOrder.

(** ** Zero among [float64] products *)

Module FloatZero.

Lemma SFeqb_zero (f : spec_float) :
  SFeqb f (S754_zero false) = true <-> exists s, f = S754_zero s.
Proof.
  unfold SFeqb, SFcompare.
  destruct f as [s | [|] | | [|] m e]; simpl; split;
    try discriminate; try (intros [s' Hs]; discriminate Hs); eauto.
Qed.

Lemma digits2_bounds (p : positive) :
  2 ^ (Z.pos (digits2_pos p) - 1) <= Z.pos p < 2 ^ Z.pos (digits2_pos p).
Proof.
  induction p as [p IH | p IH |]; simpl digits2_pos;
    rewrite ?Pos2Z.inj_succ.
  - replace (Z.succ (Z.pos (digits2_pos p)) - 1) with (Z.succ (Z.pos (digits2_pos p) - 1)) by lia.
    rewrite !Z.pow_succ_r by lia. lia.
  - replace (Z.succ (Z.pos (digits2_pos p)) - 1) with (Z.succ (Z.pos (digits2_pos p) - 1)) by lia.
    rewrite !Z.pow_succ_r by lia. lia.
  - simpl. lia.
Qed.

Lemma shr_1_m (r : shr_record) :
  0 <= shr_m r -> shr_m (shr_1 r) = shr_m r / 2.
Proof.
  destruct r as [m b s]. simpl. intros Hm.
  destruct m as [| [p | p |] | p]; simpl shr_m; try reflexivity; try lia.
  - rewrite Pos2Z.inj_xI. apply Z.div_unique with 1; lia.
  - rewrite Pos2Z.inj_xO. apply Z.div_unique with 0; lia.
Qed.

Lemma iter_shr_m (p : positive) :
  forall r, 0 <= shr_m r ->
    shr_m (SpecFloat.iter_pos shr_1 p r) = shr_m r / 2 ^ Z.pos p.
Proof.
  induction p as [p IH | p IH |]; intros r Hr; simpl SpecFloat.iter_pos.
  - assert (H1 : 0 <= shr_m (shr_1 r)).
    { rewrite shr_1_m by assumption. apply Z.div_pos; lia. }
    assert (H2 : 0 <= shr_m (SpecFloat.iter_pos shr_1 p (shr_1 r))).
    { rewrite IH by assumption. apply Z.div_pos; [assumption | apply Z.pow_pos_nonneg; lia]. }
    rewrite IH by assumption. rewrite IH by assumption.
    rewrite shr_1_m by assumption.
    rewrite !Z.div_div by (try apply Z.pow_pos_nonneg; lia).
    f_equal.
    replace (Z.pos p~1) with (1 + Z.pos p + Z.pos p) by lia.
    rewrite !Z.pow_add_r by lia. rewrite Z.pow_1_r. lia.
  - assert (H2 : 0 <= shr_m (SpecFloat.iter_pos shr_1 p r)).
    { rewrite IH by assumption. apply Z.div_pos; [assumption | apply Z.pow_pos_nonneg; lia]. }
    rewrite IH by assumption. rewrite IH by assumption.
    rewrite !Z.div_div by (try apply Z.pow_pos_nonneg; lia).
    f_equal.
    replace (Z.pos p~0) with (Z.pos p + Z.pos p) by lia.
    rewrite !Z.pow_add_r by lia. lia.
  - rewrite shr_1_m by assumption. rewrite Z.pow_1_r. reflexivity.
Qed.

Lemma shr_record_of_loc_m (m : Z) (l : location) :
  shr_m (shr_record_of_loc m l) = m.
Proof. destruct l as [| []]; reflexivity. Qed.

(** One shift to the canonical exponent keeps a mantissa positive, when
    the number is not below the smallest subnormal. *)
Lemma shr_fexp_positive (m e : Z) (l : location) :
  0 < m -> -1074 < Zdigits2 m + e ->
  0 < shr_m (fst (shr_fexp prec emax m e l))
  /\ -1074 <= snd (shr_fexp prec emax m e l)
  /\ e <= snd (shr_fexp prec emax m e l).
Proof.
  intros Hm Hd. unfold shr_fexp, shr.
  destruct m as [| pm |]; try lia. simpl Zdigits2 in *.
  pose proof (digits2_bounds pm) as [Hlo Hhi].
  set (d := Z.pos (digits2_pos pm)) in *.
  assert (Hn : fexp prec emax (d + e) - e = Z.max (d - 53) (-1074 - e)).
  { unfold fexp, SpecFloat.emin, prec, emax. lia. }
  rewrite Hn. destruct (Z.max (d - 53) (-1074 - e)) as [| n | n] eqn:Hmax;
    simpl fst; simpl snd; rewrite ?shr_record_of_loc_m; try lia.
  rewrite iter_shr_m by (rewrite shr_record_of_loc_m; lia).
  rewrite shr_record_of_loc_m. split; [| lia].
  apply Z.div_str_pos. split; [apply Z.pow_pos_nonneg; lia |].
  apply Z.le_trans with (2 ^ (d - 1)); [| assumption].
  apply Z.pow_le_mono_r; lia.
Qed.

Lemma round_nearest_even_ge (m : Z) (l : location) :
  m <= round_nearest_even m l.
Proof.
  unfold round_nearest_even. destruct l as [| []]; try lia.
  destruct (Z.even m); lia.
Qed.

(** Rounding never lowers the exponent. *)
Lemma binary_round_aux_exponent (s s' : bool) (m e : Z) (l : location)
    (m' : positive) (e' : Z) :
  binary_round_aux prec emax s m e l = S754_finite s' m' e' -> e <= e'.
Proof.
  unfold binary_round_aux.
  destruct (shr_fexp prec emax m e l) as [mrs1 e1] eqn:H1.
  destruct (shr_fexp prec emax _ e1 loc_Exact) as [mrs2 e2] eqn:H2.
  assert (He1 : e <= e1).
  { unfold shr_fexp, shr in H1.
    destruct (fexp prec emax (Zdigits2 m + e) - e); injection H1 as _ <-; lia. }
  assert (He2 : e1 <= e2).
  { unfold shr_fexp, shr in H2.
    destruct (fexp prec emax _ - e1); injection H2 as _ <-; lia. }
  destruct (shr_m mrs2); try discriminate.
  destruct (e2 <=? emax - prec); [| discriminate].
  intros [= _ _ <-]. lia.
Qed.

(** Rounding a positive integer mantissa that is not below the smallest
    subnormal does not give zero. *)
Lemma binary_round_aux_nonzero (s : bool) (m : positive) (e : Z) (l : location) :
  -1074 < Z.pos (digits2_pos m) + e ->
  forall s', binary_round_aux prec emax s (Z.pos m) e l <> S754_zero s'.
Proof.
  intros Hd s'. unfold binary_round_aux.
  destruct (shr_fexp_positive (Z.pos m) e l ltac:(lia) Hd) as (Hm1 & He1 & _).
  destruct (shr_fexp prec emax (Z.pos m) e l) as [mrs1 e1].
  simpl fst in *. simpl snd in *.
  set (m2 := round_nearest_even (shr_m mrs1) (loc_of_shr_record mrs1)).
  assert (Hm2 : 0 < m2).
  { pose proof (round_nearest_even_ge (shr_m mrs1) (loc_of_shr_record mrs1)).
    unfold m2. lia. }
  assert (Hd2 : -1074 < Zdigits2 m2 + e1).
  { destruct m2 as [| p2 |]; try lia. cbn [Zdigits2]. lia. }
  destruct (shr_fexp_positive m2 e1 loc_Exact Hm2 Hd2) as (Hm3 & _ & _).
  destruct (shr_fexp prec emax m2 e1 loc_Exact) as [mrs2 e2].
  simpl fst in *.
  destruct (shr_m mrs2); try lia.
  destruct (e2 <=? emax - prec); discriminate.
Qed.

Lemma digits2_mul (p q : positive) :
  Z.pos (digits2_pos p) + Z.pos (digits2_pos q) - 1
  <= Z.pos (digits2_pos (p * q)).
Proof.
  pose proof (digits2_bounds p) as [Hp _].
  pose proof (digits2_bounds q) as [Hq _].
  pose proof (digits2_bounds (p * q)) as [_ Hpq].
  set (dp := Z.pos (digits2_pos p)) in *.
  set (dq := Z.pos (digits2_pos q)) in *.
  set (d := Z.pos (digits2_pos (p * q))) in *.
  assert (Hprod : 2 ^ (dp - 1 + (dq - 1)) <= Z.pos (p * q)).
  { rewrite Z.pow_add_r by lia. rewrite Pos2Z.inj_mul.
    apply Z.mul_le_mono_nonneg; try assumption; apply Z.pow_nonneg; lia. }
  assert (Hlt : 2 ^ (dp - 1 + (dq - 1)) < 2 ^ d) by lia.
  apply Z.pow_lt_mono_r_iff in Hlt; lia.
Qed.

(** A finite square root has an exponent of at least [-589]. *)
Lemma SFsqrt_exponent (x : spec_float) (s : bool) (m : positive) (e : Z) :
  valid_binary x = true ->
  SF64sqrt x = S754_finite s m e -> -589 <= e.
Proof.
  intros Hvalid. unfold SF64sqrt, SFsqrt.
  destruct x as [sx | [|] | | [|] mx ex]; try discriminate.
  unfold SFsqrt_core_binary.
  destruct (Z.sqrtrem _) as [q r].
  intros Hround. apply binary_round_aux_exponent in Hround.
  simpl in Hvalid. unfold bounded, canonical_mantissa in Hvalid.
  apply andb_true_iff in Hvalid as [Hcanon _]. apply Z.eqb_eq in Hcanon.
  unfold fexp, SpecFloat.emin, prec, emax in *.
  simpl Zdigits2 in Hround.
  rewrite !Z.div2_div in Hround.
  pose proof (Pos2Z.is_pos (digits2_pos mx)).
  assert (-537 <= ex / 2) by (apply Z.div_le_lower_bound; lia).
  assert (-536 <= (Z.pos (digits2_pos mx) + ex + 1) / 2)
    by (apply Z.div_le_lower_bound; lia).
  lia.
Qed.

(** The product of two square roots is zero only if one of them is. *)
Lemma sqrt_mul_nonzero (u v : float) :
  (PrimFloat.sqrt u =? 0)%float = false ->
  (PrimFloat.sqrt v =? 0)%float = false ->
  (PrimFloat.sqrt u * PrimFloat.sqrt v =? 0)%float = false.
Proof.
  rewrite !FloatAxioms.eqb_spec, FloatAxioms.mul_spec.
  change (Prim2SF 0) with (S754_zero false).
  intros Hu Hv.
  pose proof (Prim2SF_valid (PrimFloat.sqrt u)) as Hvalid_u.
  pose proof (Prim2SF_valid (PrimFloat.sqrt v)) as Hvalid_v.
  pose proof (FloatAxioms.sqrt_spec u) as Hsqrt_u.
  pose proof (FloatAxioms.sqrt_spec v) as Hsqrt_v.
  pose proof (Prim2SF_valid u) as Hvu. pose proof (Prim2SF_valid v) as Hvv.
  destruct (SFeqb (SF64mul _ _) _) eqn:Hzero; [| reflexivity].
  apply SFeqb_zero in Hzero as [s Hzero].
  destruct (Prim2SF (PrimFloat.sqrt u)) as [su | su | | su mu eu] eqn:Hfu.
  - simpl in Hu. discriminate Hu.
  - destruct (Prim2SF (PrimFloat.sqrt v)) as [sv | sv | | sv mv ev];
      simpl in Hv, Hzero; discriminate.
  - discriminate Hzero.
  - destruct (Prim2SF (PrimFloat.sqrt v)) as [sv | sv | | sv mv ev] eqn:Hfv.
    + simpl in Hv. discriminate Hv.
    + discriminate Hzero.
    + discriminate Hzero.
    + exfalso. unfold SF64mul, SFmul in Hzero.
      symmetry in Hsqrt_u, Hsqrt_v.
      apply SFsqrt_exponent in Hsqrt_u; [| assumption].
      apply SFsqrt_exponent in Hsqrt_v; [| assumption].
      simpl in Hvalid_u, Hvalid_v. unfold bounded, canonical_mantissa in *.
      apply andb_true_iff in Hvalid_u as [Hcu _].
      apply andb_true_iff in Hvalid_v as [Hcv _].
      apply Z.eqb_eq in Hcu, Hcv.
      unfold fexp, SpecFloat.emin, prec, emax in Hcu, Hcv.
      pose proof (digits2_mul mu mv).
      revert Hzero. apply binary_round_aux_nonzero. lia.
Qed.

End FloatZero.


(** ** Loops that may raise *)

Section ResultFacts.

Context {A B : Type}.
Variable f : A -> result B.

Lemma mapM_nil : mapM f [] = Ok [].
Proof. reflexivity. Qed.

Lemma mapM_cons (x : A) (l : list A) :
  mapM f (x :: l) =
  match f x with
  | Ok y => match mapM f l with Ok k => Ok (y :: k) | Raise e => Raise e end
  | Raise e => Raise e
  end.
Proof. reflexivity. Qed.

Lemma mapM_Ok (l : list A) (out : list B) :
  mapM f l = Ok out <-> Forall2 (fun x y => f x = Ok y) l out.
Proof.
  revert out. induction l as [| x l IH]; intros out.
  - rewrite mapM_nil. split.
    + intros [= <-]. constructor.
    + intros H. inversion H. reflexivity.
  - rewrite mapM_cons. split.
    + destruct (f x) as [y |] eqn:Hx; [| discriminate].
      destruct (mapM f l) as [k |] eqn:Hl; [| discriminate].
      intros [= <-]. constructor; [assumption |]. apply IH. reflexivity.
    + intros H. inversion H as [| ? y ? k Hx Hl]; subst.
      rewrite Hx. apply IH in Hl. rewrite Hl. reflexivity.
Qed.

Lemma mapM_total (l : list A) :
  Forall (fun x => exists y, f x = Ok y) l -> exists out, mapM f l = Ok out.
Proof.
  induction 1 as [| x l [y Hx] _ [k Hl]].
  - exists []. reflexivity.
  - exists (y :: k). rewrite mapM_cons, Hx, Hl. reflexivity.
Qed.

End ResultFacts.

(** ** The sort *)

Lemma insert_by_score_perm (x : nat * float) (l : list (nat * float)) :
  insert_by_score x l ≡ₚ x :: l.
Proof.
  induction l as [| y l IH]; simpl; [reflexivity |].
  destruct (_ <? _)%float; [| reflexivity].
  rewrite IH. apply Permutation_swap.
Qed.

Lemma sort_by_score_perm (l : list (nat * float)) : sort_by_score l ≡ₚ l.
Proof.
  induction l as [| x l IH]; simpl; [reflexivity |].
  rewrite insert_by_score_perm, IH. reflexivity.
Qed.

Lemma sort_by_score_length (l : list (nat * float)) :
  length (sort_by_score l) = length l.
Proof. apply Permutation_length, sort_by_score_perm. Qed.

Lemma insert_by_score_sorted (x : nat * float) (l : list (nat * float)) :
  Forall (fun y => PrimFloat.is_nan (snd y) = false) l ->
  Forall (fun y => (fst x < fst y)%nat) l ->
  StronglySorted ranks_before l ->
  StronglySorted ranks_before (insert_by_score x l).
Proof.
  intros Hnan Hfst Hsorted.
  induction Hsorted as [| y l Hsorted IH Hy]; simpl.
  - repeat constructor.
  - inversion Hnan as [| ? ? Hnan_y Hnan_l]; subst.
    inversion Hfst as [| ? ? Hfst_y Hfst_l]; subst.
    destruct (snd x <? snd y)%float eqn:Hlt.
    + constructor; [apply IH; assumption |].
      rewrite insert_by_score_perm. constructor; [| assumption].
      split; [apply FloatOrder.ltb_asym; assumption | congruence].
    + constructor; [constructor; assumption |].
      constructor; [split; [assumption | intros _; assumption] |].
      rewrite Forall_forall in Hy, Hfst_l |- *.
      intros w Hw. split; [| intros _; apply Hfst_l; assumption].
      apply (FloatOrder.ltb_negtrans _ (snd y)); try assumption.
      apply Hy. assumption.
Qed.

Lemma sort_by_score_sorted (l : list (nat * float)) :
  Forall (fun y => PrimFloat.is_nan (snd y) = false) l ->
  StronglySorted (fun a b => (fst a < fst b)%nat) l ->
  StronglySorted ranks_before (sort_by_score l).
Proof.
  intros Hnan Hinc. induction Hinc as [| x l Hinc IH Hx]; simpl.
  - constructor.
  - inversion Hnan; subst.
    apply insert_by_score_sorted; rewrite ?sort_by_score_perm; auto.
Qed.

Lemma StronglySorted_lookup {A : Type} (R : A -> A -> Prop) (l : list A) :
  StronglySorted R l ->
  forall (p r : nat) (a b : A),
    (p < r)%nat -> l !! p = Some a -> l !! r = Some b -> R a b.
Proof.
  induction 1 as [| x l Hsorted IH Hx]; intros p r a b Hpr Hp Hr.
  - discriminate Hp.
  - destruct r as [| r]; [lia |]. simpl in Hr.
    destruct p as [| p]; simpl in Hp.
    + injection Hp as <-. rewrite Forall_forall in Hx. apply Hx.
      eapply list_elem_of_lookup_2. eassumption.
    + apply (IH p r); [lia | assumption ..].
Qed.

(** ** [search] *)

Lemma slice_from_start {A : Type} (l : list A) (k : Z) :
  slice l 0 k = take (Z.to_nat (slice_index (len l) k)) l.
Proof.
  unfold slice. replace (slice_index (len l) 0) with 0.
  - rewrite Z.sub_0_r. reflexivity.
  - unfold slice_index. simpl. pose proof (len_nonneg l). lia.
Qed.

Lemma slice_first {A : Type} (l : list A) (k : Z) :
  0 <= k -> slice l 0 k = take (Z.to_nat k) l.
Proof.
  intros Hk. rewrite slice_from_start. unfold slice_index.
  destruct (Z.ltb_spec k 0); [lia |].
  destruct (Z.le_ge_cases k (len l)).
  - rewrite Z.min_l by lia. reflexivity.
  - rewrite Z.min_r by lia. unfold len in *.
    rewrite !take_ge by lia. reflexivity.
Qed.

Section SearchFacts.

Variable self : SimpleVectorStore.
Variable query_vec : vector.

Lemma scores_from (k : nat) (embs : list vector) (sims : list (nat * float)) :
  mapM (fun ie : nat * vector =>
          sim ← _cosine_similarity query_vec (snd ie); mret (fst ie, sim))
       (imap (fun i a => ((k + i)%nat, a)) embs) = Ok sims ->
  map fst sims = seq k (length embs)
  /\ Forall2 (fun emb e => _cosine_similarity query_vec emb = Ok (snd e))
             embs sims.
Proof.
  revert k sims. induction embs as [| emb embs IH]; intros k sims.
  - intros [= <-]. split; constructor.
  - simpl imap. rewrite mapM_cons. simpl snd. simpl fst.
    destruct (_cosine_similarity query_vec emb) as [sim |] eqn:Hsim;
      [| discriminate].
    simpl.
    rewrite (imap_ext _ (fun i a => ((S k + i)%nat, a)))
      by (intros; simpl; f_equal; lia).
    destruct (mapM _ _) as [rest |] eqn:Hrest; [| discriminate].
    intros [= <-]. apply IH in Hrest as [Hfst Hall]. simpl. split.
    + rewrite Nat.add_0_r, Hfst. reflexivity.
    + constructor; assumption.
Qed.

Lemma similarities_spec (sims : list (nat * float)) :
  similarities self query_vec = Ok sims ->
  map fst sims = seq 0 (length (embeddings self))
  /\ Forall2 (fun emb e => _cosine_similarity query_vec emb = Ok (snd e))
             (embeddings self) sims.
Proof. apply (scores_from 0). Qed.

Lemma similarities_length (sims : list (nat * float)) :
  similarities self query_vec = Ok sims ->
  length sims = length (embeddings self).
Proof.
  intros Hsims. apply similarities_spec in Hsims as [_ Hall].
  symmetry. eapply Forall2_length. eassumption.
Qed.

(** Every entry of [similarities] carries its own position and the score
    of the vector stored there. *)
Lemma similarities_entry (sims : list (nat * float)) (e : nat * float) :
  similarities self query_vec = Ok sims -> e ∈ sims ->
  (fst e < length (embeddings self))%nat
  /\ exists emb,
       embeddings self !! fst e = Some emb
       /\ _cosine_similarity query_vec emb = Ok (snd e).
Proof.
  intros Hsims He. apply similarities_spec in Hsims as [Hfst Hall].
  apply list_elem_of_lookup in He as [p Hp].
  assert (Hpe : fst e = p).
  { assert (Hm : map fst sims !! p = Some (fst e))
      by (rewrite list_lookup_fmap, Hp; reflexivity).
    rewrite Hfst in Hm. apply lookup_seq in Hm. lia. }
  destruct (Forall2_lookup_r _ _ _ _ _ Hall Hp) as (emb & Hemb & Hcos).
  rewrite Hpe. split; [eapply lookup_lt_Some; eassumption |].
  exists emb. split; assumption.
Qed.

Lemma similarities_increasing (sims : list (nat * float)) :
  similarities self query_vec = Ok sims ->
  StronglySorted (fun a b => (fst a < fst b)%nat) sims.
Proof.
  intros Hsims. apply similarities_spec in Hsims as [Hfst _].
  revert Hfst. generalize (length (embeddings self)) 0%nat.
  induction sims as [| e sims IH]; intros n k Hfst; [constructor |].
  destruct n as [| n]; [discriminate |]. simpl in Hfst.
  injection Hfst as He Hrest. constructor; [eapply IH; eassumption |].
  rewrite Forall_forall. intros y Hy.
  assert (Hin : fst y ∈ map fst sims) by (apply list_elem_of_fmap; eauto).
  rewrite Hrest in Hin. apply elem_of_seq in Hin. lia.
Qed.

Lemma similarities_comparable (sims : list (nat * float)) :
  scores_comparable self query_vec ->
  similarities self query_vec = Ok sims ->
  Forall (fun e => PrimFloat.is_nan (snd e) = false) sims.
Proof.
  intros Hcmp Hsims. rewrite Forall_forall. intros e He.
  destruct (similarities_entry sims e Hsims He) as (_ & emb & Hemb & Hcos).
  eapply Hcmp; [| eassumption].
  eapply list_elem_of_lookup_2. eassumption.
Qed.

(** The ranking that [search] cuts its results from. *)
Lemma ranking_ranked (sims : list (nat * float)) :
  scores_comparable self query_vec ->
  similarities self query_vec = Ok sims ->
  ranked (sort_by_score sims).
Proof.
  intros Hcmp Hsims. unfold ranked. apply StronglySorted_lookup.
  apply sort_by_score_sorted.
  - eapply similarities_comparable; eassumption.
  - apply similarities_increasing. assumption.
Qed.

Lemma ranked_take (n : nat) (l : list (nat * float)) :
  ranked l -> ranked (take n l).
Proof.
  intros Hl p r a b Hpr Hp Hr.
  apply lookup_take_Some in Hp as [Hp _]. apply lookup_take_Some in Hr as [Hr _].
  eapply Hl; eassumption.
Qed.

(** The second loop succeeds on a selection of positions inside the
    chunk list, and relates each result to its entry. *)
Lemma top_results_Ok (selected : list (nat * float)) (hits : list Hit) :
  top_results self selected = Ok hits <->
  Forall2 (fun entry hit =>
             chunks self !! fst entry = Some (hit_chunk hit)
             /\ score hit = snd entry) selected hits.
Proof.
  unfold top_results. rewrite mapM_Ok.
  split; intros Hall; (eapply Forall2_impl; [exact Hall |]); intros entry hit.
  - unfold getitem. destruct (chunks self !! fst entry); [| discriminate].
    intros [= <-]. split; reflexivity.
  - intros [Hc Hs]. unfold getitem. rewrite Hc. simpl.
    destruct hit; simpl in *. rewrite Hs. reflexivity.
Qed.

Lemma top_results_total (selected : list (nat * float)) :
  Forall (fun entry => (fst entry < length (chunks self))%nat) selected ->
  exists hits, top_results self selected = Ok hits.
Proof.
  intros Hsel. apply mapM_total. eapply Forall_impl; [eassumption |].
  intros entry Hlt. simpl in Hlt. apply lookup_lt_is_Some_2 in Hlt as [c Hc].
  exists (mkHit c (snd entry)). unfold getitem. rewrite Hc. reflexivity.
Qed.

Lemma search_unfold (query_embedding : list float) (top_k : Z) :
  search self query_embedding top_k =
  if len (embeddings self) =? 0 then Ok []
  else match similarities self (np.array query_embedding) with
       | Ok sims => top_results self (slice (sort_by_score sims) 0 top_k)
       | Raise e => Raise e
       end.
Proof. reflexivity. Qed.

End SearchFacts.

Lemma search_empty (self : SimpleVectorStore) (q : list float) (top_k : Z) :
  embeddings self = [] -> search self q top_k = Ok [].
Proof. intros Hempty. unfold search. rewrite Hempty. reflexivity. Qed.

Lemma Forall2_with_left {A B : Type} (P : A -> B -> Prop) (Q : A -> Prop)
    (l : list A) (k : list B) :
  Forall2 P l k -> Forall Q l -> Forall2 (fun x y => P x y /\ Q x) l k.
Proof.
  induction 1 as [| x y l k Hxy _ IH]; intros HQ; [constructor |].
  inversion HQ; subst. constructor; auto.
Qed.

(** ** The claims on search *)

(** C2, as amended: for a collection with as many chunks as vectors and a
    query it can be scored against, and for every [top_k >= 0], [search]
    returns the first [top_k] entries of the ranking (each with the chunk
    at the entry's position and the entry's score); it returns all of
    them when the collection holds no more than [top_k] vectors, and none
    when [top_k = 0]; and every search of an empty collection returns the
    empty list and raises nothing. *)
Theorem search_top_k (self : SimpleVectorStore) (q : list float) (top_k : Z)
    (sims : list (nat * float)) :
  length (chunks self) = length (embeddings self) ->
  similarities self (np.array q) = Ok sims ->
  0 <= top_k ->
  exists hits,
    search self q top_k = Ok hits
    /\ Forall2 (fun entry hit =>
                  chunks self !! fst entry = Some (hit_chunk hit)
                  /\ score hit = snd entry)
               (take (Z.to_nat top_k) (sort_by_score sims)) hits
    /\ (len (embeddings self) <= top_k ->
        length hits = length (embeddings self))
    /\ (top_k = 0 -> hits = [])
    /\ (embeddings self = [] ->
        forall q' top_k', search self q' top_k' = Ok []).
Proof.
  intros Hparity Hsims Hk.
  assert (Hlen := similarities_length _ _ _ Hsims).
  destruct (top_results_total self (take (Z.to_nat top_k) (sort_by_score sims)))
    as [hits Hhits].
  { rewrite Forall_forall. intros entry Hentry.
    apply (subseteq_take _ _ _) in Hentry.
    rewrite sort_by_score_perm in Hentry.
    destruct (similarities_entry _ _ _ _ Hsims Hentry) as [Hlt _]. lia. }
  assert (Hall := proj1 (top_results_Ok _ _ _) Hhits).
  assert (Hcount : length hits
                   = Nat.min (Z.to_nat top_k) (length (embeddings self))).
  { rewrite <- (Forall2_length _ _ _ Hall), length_take, sort_by_score_length.
    lia. }
  rewrite search_unfold.
  destruct (Z.eqb_spec (len (embeddings self)) 0) as [Hzero | Hpos].
  - assert (Hnil : embeddings self = []) by (apply len_zero_nil; assumption).
    rewrite Hnil in Hcount. rewrite Nat.min_0_r in Hcount.
    destruct hits; [| discriminate].
    exists []. repeat split; auto.
    + rewrite Hnil. simpl. lia.
    + intros _ q' k'. apply search_empty. assumption.
  - rewrite Hsims, slice_first by assumption.
    exists hits. repeat split; auto.
    + unfold len. lia.
    + intros ->. simpl in Hcount. destruct hits; [reflexivity | discriminate].
    + intros Hnil. rewrite Hnil in Hpos. contradiction Hpos. reflexivity.
Qed.

Lemma search_top_k_witness :
  length (chunks pie_store) = length (embeddings pie_store)
  /\ similarities pie_store (np.array pie_query)
     = Ok [(0%nat, 1%float); (1%nat, 0%float); (2%nat, 1%float)]
  /\ 0 <= 2
  /\ exists hits,
       search pie_store pie_query 2 = Ok hits
       /\ Forall2 (fun entry hit =>
                     chunks pie_store !! fst entry = Some (hit_chunk hit)
                     /\ score hit = snd entry)
                  (take (Z.to_nat 2)
                     (sort_by_score
                        [(0%nat, 1%float); (1%nat, 0%float); (2%nat, 1%float)]))
                  hits
       /\ (len (embeddings pie_store) <= 2 ->
           length hits = length (embeddings pie_store))
       /\ (2 = 0 -> hits = [])
       /\ (embeddings pie_store = [] ->
           forall q' top_k', search pie_store q' top_k' = Ok []).
Proof.
  split; [reflexivity |]. split; [vm_compute; reflexivity |].
  split; [lia |].
  apply (search_top_k pie_store pie_query 2);
    [reflexivity | vm_compute; reflexivity | lia].
Defined.

(** C2 as stated fails for a negative [top_k]: the slice
    [similarities[:-1]] drops the last entry of the ranking and keeps the
    others. *)
Lemma search_negative_top_k :
  -1 <= 0
  /\ search pie_store pie_query (-1)
     = Ok [mkHit (mkChunk (lit "apple pie") 0 0 9) 1%float;
           mkHit (mkChunk (lit "apple pie") 2 21 30) 1%float].
Proof. split; [lia | vm_compute; reflexivity]. Qed.

Lemma pie_scores_comparable :
  scores_comparable pie_store (np.array pie_query).
Proof.
  intros emb sim Hin Hcos. simpl in Hin.
  repeat (apply elem_of_cons in Hin as [-> | Hin];
          [vm_compute in Hcos; injection Hcos as <-; reflexivity |]).
  inversion Hin.
Qed.

(** C3, as amended: for every collection and query vector of which no
    similarity is NaN, the results of [search] follow a ranking that is
    sorted by cosine similarity, descending, with equal scores in the
    order in which their vectors were inserted. In particular, after the
    chunks ["apple pie"], ["banana bread"], ["apple pie"] are ingested
    with the vectors [[1,0]], [[0,1]], [[1,0]], the query [[1,0]] with
    [top_k = 2] returns chunk 0 and then chunk 2, both with score [1.0];
    chunk 1, with score [0.0], ranks after them. *)
Theorem search_ranking :
  (forall (self : SimpleVectorStore) (q : list float) (top_k : Z)
          (hits : list Hit),
      scores_comparable self (np.array q) ->
      search self q top_k = Ok hits ->
      exists entries,
        Forall2 (hit_of self (np.array q)) entries hits /\ ranked entries)
  /\ (forall writable : string -> bool,
        fst (store_document writable "pies" pie_chunks pie_vectors
                            fresh_world)
        = Ok 3)
  /\ fst (search_document "pies" pie_query 2 pie_world)
     = Ok [mkSource (lit "apple pie") 1%float 0 (mkMetadata 0 0 9);
           mkSource (lit "apple pie") 1%float 2 (mkMetadata 2 21 30)]
  /\ fst (search_document "pies" pie_query 3 pie_world)
     = Ok [mkSource (lit "apple pie") 1%float 0 (mkMetadata 0 0 9);
           mkSource (lit "apple pie") 1%float 2 (mkMetadata 2 21 30);
           mkSource (lit "banana bread") 0%float 1 (mkMetadata 1 9 21)].
Proof.
  split;
    [| split; [intros writable; reflexivity
              | split; vm_compute; reflexivity]].
  intros self q top_k hits Hcmp. rewrite search_unfold.
  destruct (len (embeddings self) =? 0).
  { intros [= <-]. exists []. split; [constructor |].
    intros p r a b _ Hp. discriminate Hp. }
  destruct (similarities self (np.array q)) as [sims |] eqn:Hsims;
    [| discriminate].
  rewrite slice_from_start. intros Hhits.
  set (entries := take _ (sort_by_score sims)) in *.
  exists entries. split.
  - apply top_results_Ok in Hhits.
    assert (Hentries : Forall (fun entry =>
                exists emb,
                  embeddings self !! fst entry = Some emb
                  /\ _cosine_similarity (np.array q) emb = Ok (snd entry))
              entries).
    { rewrite Forall_forall. intros entry Hentry. unfold entries in Hentry.
      apply (subseteq_take _ _ _) in Hentry. rewrite sort_by_score_perm in Hentry.
      apply (similarities_entry _ _ _ _ Hsims Hentry). }
    eapply Forall2_impl;
      [apply (Forall2_with_left _ _ _ _ Hhits Hentries) |].
    intros entry hit [[Hc Hs] He]. repeat split; assumption.
  - apply ranked_take. eapply ranking_ranked; eassumption.
Qed.

Lemma search_ranking_witness :
  scores_comparable pie_store (np.array pie_query)
  /\ search pie_store pie_query 2
     = Ok [mkHit (mkChunk (lit "apple pie") 0 0 9) 1%float;
           mkHit (mkChunk (lit "apple pie") 2 21 30) 1%float]
  /\ exists entries,
       Forall2 (hit_of pie_store (np.array pie_query)) entries
               [mkHit (mkChunk (lit "apple pie") 0 0 9) 1%float;
                mkHit (mkChunk (lit "apple pie") 2 21 30) 1%float]
       /\ ranked entries.
Proof.
  split; [exact pie_scores_comparable |].
  split; [vm_compute; reflexivity |].
  apply (proj1 search_ranking pie_store pie_query 2);
    [exact pie_scores_comparable | vm_compute; reflexivity].
Defined.

(** C3 as stated fails when a score is NaN. The dot product of the query
    with the second vector overflows to infinity, and so does that
    vector's norm: the score is [inf / inf]. No comparison with NaN is
    true, so the sort finds nothing to move and the vector of score [0.0]
    stays ahead of the vector of score [1.0]. *)
Lemma search_nan_unsorted :
  search overflow_store overflow_query 3
  = Ok [mkHit (mkChunk (lit "apple pie") 0 0 9) 0%float;
        mkHit (mkChunk (lit "banana bread") 1 9 21) nan;
        mkHit (mkChunk (lit "apple pie") 2 21 30) 1%float]
  /\ (0 <? 1)%float = true.
Proof. split; vm_compute; reflexivity. Qed.

(** A stored file is loaded as it is: with fewer chunks than vectors the
    search of it raises [IndexError]. *)
Example search_chunkless_file :
  fst (search_document "pies" pie_query 5 chunkless_world) = Raise IndexError.
Proof. vm_compute. reflexivity. Qed.

(** ** The claims on the store *)

Lemma len_differs {A B : Type} (l : list A) (k : list B) :
  length l <> length k -> negb (len l =? len k) = true.
Proof.
  intros Hne. unfold len. destruct (Z.eqb_spec (Z.of_nat (length l))
                                               (Z.of_nat (length k))); [lia |].
  reflexivity.
Qed.

(** C4: with chunk and vector sequences of different lengths,
    [store_document] raises [ValueError] and leaves the registry of
    stores and the storage directory as they were, and so does the [add]
    method with the store object and the storage directory. *)
Theorem add_mismatch_atomic (writable : string -> bool) (doc_id : string)
    (chunks : list Chunk) (embeddings : list (list float)) (w : world)
    (self : SimpleVectorStore) (files : gmap string file) :
  length chunks <> length embeddings ->
  store_document writable doc_id chunks embeddings w = (Raise ValueError, w)
  /\ add writable self chunks embeddings files
     = (Raise ValueError, self, files).
Proof.
  intros Hne. unfold store_document, add.
  rewrite (len_differs _ _ Hne). split; reflexivity.
Qed.

Lemma add_mismatch_atomic_witness :
  length (take 2 pie_chunks) <> length pie_vectors
  /\ store_document flat_directory "pies" (take 2 pie_chunks) pie_vectors
                     pie_world
     = (Raise ValueError, pie_world)
  /\ add flat_directory pie_store (take 2 pie_chunks) pie_vectors
         (files pie_world)
     = (Raise ValueError, pie_store, files pie_world).
Proof.
  split; [simpl; lia |].
  apply (add_mismatch_atomic flat_directory "pies" (take 2 pie_chunks)
           pie_vectors pie_world pie_store (files pie_world)).
  simpl; lia.
Defined.










(** ** The claim on the score *)

(** C8: when the norm of either vector is zero, [_cosine_similarity]
    returns [0.0] and divides nothing; otherwise it returns the quotient
    of the dot product by the product of the two norms, and that product
    is not zero. *)
Theorem cosine_similarity_zero_norm (vec1 vec2 : vector) (dot_product : float) :
  np.dot vec1 vec2 = Ok dot_product ->
  (((np.norm vec1 =? 0)%float = true \/ (np.norm vec2 =? 0)%float = true) ->
   _cosine_similarity vec1 vec2 = Ok 0%float)
  /\ ((np.norm vec1 =? 0)%float = false ->
      (np.norm vec2 =? 0)%float = false ->
      _cosine_similarity vec1 vec2
      = Ok (dot_product / (np.norm vec1 * np.norm vec2))%float
      /\ (np.norm vec1 * np.norm vec2 =? 0)%float = false).
Proof.
  intros Hdot. unfold _cosine_similarity. rewrite Hdot. simpl. split.
  - intros [-> | ->]; [reflexivity |]. rewrite orb_true_r. reflexivity.
  - intros H1 H2. rewrite H1, H2. split; [reflexivity |].
    apply FloatZero.sqrt_mul_nonzero; assumption.
Qed.

Lemma cosine_similarity_zero_norm_witness :
  np.dot [0; 0]%float [1; 0]%float = Ok 0%float
  /\ (((np.norm [0; 0]%float =? 0)%float = true
       \/ (np.norm [1; 0]%float =? 0)%float = true) ->
      _cosine_similarity [0; 0]%float [1; 0]%float = Ok 0%float)
  /\ ((np.norm [0; 0]%float =? 0)%float = false ->
      (np.norm [1; 0]%float =? 0)%float = false ->
      _cosine_similarity [0; 0]%float [1; 0]%float
      = Ok (0 / (np.norm [0; 0]%float * np.norm [1; 0]%float))%float
      /\ (np.norm [0; 0]%float * np.norm [1; 0]%float =? 0)%float = false).
Proof.
  split; [vm_compute; reflexivity |].
  apply (cosine_similarity_zero_norm [0; 0]%float [1; 0]%float 0%float).
  vm_compute; reflexivity.
Defined.

(** A zero vector scores [0.0] against every vector of its length, and
    two parallel vectors score [1.0]. *)
Example cosine_similarity_values :
  _cosine_similarity [0; 0]%float [3; 4]%float = Ok 0%float
  /\ _cosine_similarity [3; 4]%float [3; 4]%float = Ok 1%float
  /\ _cosine_similarity [1; 0]%float [0; 1]%float = Ok 0%float
  /\ _cosine_similarity [1; 0]%float [1]%float = Raise ValueError.
Proof. repeat split; vm_compute; reflexivity. Qed.

(** ** Further properties of the retrieval core *)

(** X1: with an overlap smaller than the chunk size [chunk_text] returns,
    in token mode and in the character fallback, and returns the same
    chunks under every larger bound on the iterations. *)
Theorem chunk_text_terminates
    {token : Type} (encode : str -> option (list token))
    (decode : list token -> str) (s : str) (cs ov : Z) :
  ov < cs ->
  exists fuel chunks, forall fuel',
    (fuel <= fuel')%nat ->
    chunk_text encode decode fuel' s cs ov = Returned chunks.
Proof. intros Hstep. apply chunk_text_returns. lia. Qed.

Lemma chunk_text_terminates_witness :
  CHUNK_OVERLAP_TOKENS < CHUNK_SIZE_TOKENS
  /\ exists fuel chunks, forall fuel',
       (fuel <= fuel')%nat ->
       chunk_text char_encode char_decode fuel' (lit "apple pie")
                  CHUNK_SIZE_TOKENS CHUNK_OVERLAP_TOKENS
       = Returned chunks.
Proof.
  split; [reflexivity |].
  apply (chunk_text_terminates char_encode char_decode (lit "apple pie")
           CHUNK_SIZE_TOKENS CHUNK_OVERLAP_TOKENS).
  reflexivity.
Defined.




(** X3: the results of one search come from distinct positions of the
    collection: no chunk is returned twice. *)
Theorem search_positions_distinct (self : SimpleVectorStore)
    (q : list float) (top_k : Z) (hits : list Hit) :
  search self q top_k = Ok hits ->
  exists entries,
    Forall2 (hit_of self (np.array q)) entries hits
    /\ NoDup (map fst entries).
Proof.
  rewrite search_unfold.
  destruct (len (embeddings self) =? 0).
  { intros [= <-]. exists []. split; constructor. }
  destruct (similarities self (np.array q)) as [sims |] eqn:Hsims;
    [| discriminate].
  rewrite slice_from_start. intros Hhits.
  set (n := Z.to_nat _) in *.
  exists (take n (sort_by_score sims)). split.
  - apply top_results_Ok in Hhits.
    assert (Hentries : Forall (fun entry =>
                exists emb,
                  embeddings self !! fst entry = Some emb
                  /\ _cosine_similarity (np.array q) emb = Ok (snd entry))
              (take n (sort_by_score sims))).
    { rewrite Forall_forall. intros entry Hentry.
      apply (subseteq_take _ _ _) in Hentry.
      rewrite sort_by_score_perm in Hentry.
      apply (similarities_entry _ _ _ _ Hsims Hentry). }
    eapply Forall2_impl;
      [apply (Forall2_with_left _ _ _ _ Hhits Hentries) |].
    intros entry hit [[Hc Hs] He]. repeat split; assumption.
  - apply similarities_spec in Hsims as [Hfst _].
    apply (sublist_NoDup _ (fst <$> sort_by_score sims));
      [| apply (fmap_sublist fst), sublist_take].
    rewrite sort_by_score_perm. change (NoDup (map fst sims)).
    rewrite Hfst. apply NoDup_seq.
Qed.

Lemma search_positions_distinct_witness :
  search pie_store pie_query 2
  = Ok [mkHit (mkChunk (lit "apple pie") 0 0 9) 1%float;
        mkHit (mkChunk (lit "apple pie") 2 21 30) 1%float]
  /\ exists entries,
       Forall2 (hit_of pie_store (np.array pie_query)) entries
               [mkHit (mkChunk (lit "apple pie") 0 0 9) 1%float;
                mkHit (mkChunk (lit "apple pie") 2 21 30) 1%float]
       /\ NoDup (map fst entries).
Proof.
  split; [vm_compute; reflexivity |].
  apply (search_positions_distinct pie_store pie_query 2).
  vm_compute; reflexivity.
Defined.


(** ** The chunker's windows *)

Lemma window_count_nonpos (x step : Z) :
  0 < step -> x <= 0 -> window_count x step = 0%nat.
Proof.
  intros Hstep Hx. unfold window_count.
  assert ((x + step - 1) / step <= 0); [| lia].
  apply Z.lt_succ_r. apply Z.div_lt_upper_bound; lia.
Qed.

Lemma window_count_pos (x step : Z) :
  0 < step -> 0 < x ->
  window_count x step = S (window_count (x - step) step).
Proof.
  intros Hstep Hx. unfold window_count.
  replace (x + step - 1) with (x - step + step - 1 + 1 * step) by lia.
  rewrite Z.div_add by lia.
  assert (0 <= (x - step + step - 1) / step) by (apply Z.div_pos; lia).
  lia.
Qed.

(** The windows reach the end of the sequence. *)
Lemma window_count_covers (x step : Z) :
  0 < step -> x <= Z.of_nat (window_count x step) * step.
Proof.
  intros Hstep. unfold window_count.
  destruct (Z.le_gt_cases x 0) as [Hx | Hx]; [nia |].
  assert (Hq : 0 <= (x + step - 1) / step) by (apply Z.div_pos; lia).
  rewrite Z2Nat.id by assumption.
  pose proof (Z.mod_pos_bound (x + step - 1) step Hstep).
  pose proof (Z.div_mod (x + step - 1) step ltac:(lia)).
  nia.
Qed.

Lemma window_count_last (x step : Z) :
  0 < step -> 0 < x ->
  (Z.of_nat (window_count x step) - 1) * step < x.
Proof.
  intros Hstep Hx. unfold window_count.
  assert (Hq : 0 <= (x + step - 1) / step) by (apply Z.div_pos; lia).
  rewrite Z2Nat.id by assumption.
  pose proof (Z.mod_pos_bound (x + step - 1) step Hstep).
  pose proof (Z.div_mod (x + step - 1) step ltac:(lia)).
  nia.
Qed.

Section WindowFacts.

Context {token : Type}.
Variable encode : str -> option (list token).
Variable decode : list token -> str.

Lemma char_loop_windows (s : str) (cs ov : Z) :
  0 < cs - ov ->
  forall (r fuel : nat) (k : nat) (chunks : list Chunk),
    r = window_count (len s - Z.of_nat k * (cs - ov)) (cs - ov) ->
    (r <= fuel)%nat ->
    char_loop fuel s cs ov (Z.of_nat k * (cs - ov)) (Z.of_nat k) chunks
    = Returned (chunks ++ map (char_window s cs (cs - ov)) (seq k r)).
Proof.
  intros Hstep. induction r as [| r IH]; intros fuel k chunks Hr Hfuel;
    rewrite char_loop_unfold.
  - destruct (Z.ltb_spec (Z.of_nat k * (cs - ov)) (len s)) as [Hlt | Hge].
    + rewrite window_count_pos in Hr by lia. discriminate Hr.
    + simpl. rewrite app_nil_r. reflexivity.
  - destruct (Z.ltb_spec (Z.of_nat k * (cs - ov)) (len s)) as [Hlt | Hge].
    2: { rewrite window_count_nonpos in Hr by lia. discriminate Hr. }
    rewrite window_count_pos in Hr by lia. injection Hr as Hr.
    destruct fuel as [| fuel]; [lia |]. cbv zeta.
    replace (Z.of_nat k * (cs - ov) + (cs - ov))
      with (Z.of_nat (S k) * (cs - ov)) in * by lia.
    replace (len s - Z.of_nat k * (cs - ov) - (cs - ov))
      with (len s - Z.of_nat (S k) * (cs - ov)) in Hr by lia.
    change (mkChunk _ _ _ _) with (char_window s cs (cs - ov) k).
    destruct (Z.geb_spec (Z.of_nat (S k) * (cs - ov)) (len s)) as [Hend | Hmore].
    + rewrite window_count_nonpos in Hr by lia. subst r. reflexivity.
    + destruct (Z.eqb_spec (Z.of_nat (S k) * (cs - ov)) 0); [nia |].
      replace (Z.of_nat k + 1) with (Z.of_nat (S k)) by lia.
      rewrite (IH fuel (S k)) by (assumption || lia).
      rewrite <- app_assoc. reflexivity.
Qed.

Lemma token_loop_windows (tokens : list token) (cs ov : Z) :
  0 < cs - ov ->
  forall (r fuel : nat) (k : nat) (chunks : list Chunk),
    r = window_count (len tokens - Z.of_nat k * (cs - ov)) (cs - ov) ->
    (r <= fuel)%nat ->
    token_loop decode fuel tokens cs ov (Z.of_nat k * (cs - ov)) (Z.of_nat k)
               chunks
    = Returned (chunks ++ map (token_window decode tokens cs (cs - ov)) (seq k r)).
Proof.
  intros Hstep. induction r as [| r IH]; intros fuel k chunks Hr Hfuel;
    rewrite token_loop_unfold.
  - destruct (Z.ltb_spec (Z.of_nat k * (cs - ov)) (len tokens)) as [Hlt | Hge].
    + rewrite window_count_pos in Hr by lia. discriminate Hr.
    + simpl. rewrite app_nil_r. reflexivity.
  - destruct (Z.ltb_spec (Z.of_nat k * (cs - ov)) (len tokens)) as [Hlt | Hge].
    2: { rewrite window_count_nonpos in Hr by lia. discriminate Hr. }
    rewrite window_count_pos in Hr by lia. injection Hr as Hr.
    destruct fuel as [| fuel]; [lia |]. cbv zeta.
    change (mkChunk _ _ _ _) with (token_window decode tokens cs (cs - ov) k).
    replace (Z.of_nat k * (cs - ov) + (cs - ov))
      with (Z.of_nat (S k) * (cs - ov)) in * by lia.
    replace (len tokens - Z.of_nat k * (cs - ov) - (cs - ov))
      with (len tokens - Z.of_nat (S k) * (cs - ov)) in Hr by lia.
    destruct (Z.geb_spec (Z.of_nat (S k) * (cs - ov)) (len tokens))
      as [Hend | Hmore].
    + rewrite window_count_nonpos in Hr by lia. subst r. reflexivity.
    + destruct (Z.eqb_spec (Z.of_nat (S k) * (cs - ov)) 0); [nia |].
      replace (Z.of_nat k + 1) with (Z.of_nat (S k)) by lia.
      rewrite (IH fuel (S k)) by (assumption || lia).
      rewrite <- app_assoc. reflexivity.
Qed.

End WindowFacts.

(** The chunks of the character fallback, in closed form. *)
Lemma fallback_windows
    {token : Type} (encode : str -> option (list token))
    (decode : list token -> str) (fuel : nat) (s : str) (cs ov : Z) :
  is_blank s = false -> encode s = None ->
  (window_count (len s) (CHUNK_SIZE_CHARS - CHUNK_OVERLAP_CHARS) <= fuel)%nat ->
  chunk_text encode decode fuel s cs ov
  = Returned
      (map (char_window s CHUNK_SIZE_CHARS
                        (CHUNK_SIZE_CHARS - CHUNK_OVERLAP_CHARS))
           (seq 0 (window_count (len s)
                                (CHUNK_SIZE_CHARS - CHUNK_OVERLAP_CHARS)))).
Proof.
  intros Hblank Henc Hfuel. rewrite chunk_text_char_mode by assumption.
  apply (char_loop_windows s CHUNK_SIZE_CHARS CHUNK_OVERLAP_CHARS eq_refl
           (window_count (len s) (CHUNK_SIZE_CHARS - CHUNK_OVERLAP_CHARS))
           fuel 0%nat []); [| assumption].
  f_equal. simpl. lia.
Qed.

(** X5: when the tokenizer is unavailable, [chunk_text] of a text that is
    not blank returns one chunk for every multiple of 3500 below the
    length of the text, in order: chunk [k] is the slice of the text from
    [3500 * k] to [3500 * k + 4000], cut at the end of the text, with
    exactly these offsets; the arguments [chunk_size] and [overlap] play
    no part. *)
Theorem chunk_text_fallback_windows
    {token : Type} (encode : str -> option (list token))
    (decode : list token -> str) (fuel : nat) (s : str) (cs ov : Z) :
  is_blank s = false -> encode s = None ->
  (window_count (len s) (CHUNK_SIZE_CHARS - CHUNK_OVERLAP_CHARS) <= fuel)%nat ->
  chunk_text encode decode fuel s cs ov
  = Returned
      (map (char_window s CHUNK_SIZE_CHARS
                        (CHUNK_SIZE_CHARS - CHUNK_OVERLAP_CHARS))
           (seq 0 (window_count (len s)
                                (CHUNK_SIZE_CHARS - CHUNK_OVERLAP_CHARS)))).
Proof. apply fallback_windows. Qed.

Lemma chunk_text_fallback_windows_witness :
  is_blank (repeat 97%N 3600) = false
  /\ no_encode (repeat 97%N 3600) = None
  /\ (window_count (len (repeat 97%N 3600))
                   (CHUNK_SIZE_CHARS - CHUNK_OVERLAP_CHARS) <= 2)%nat
  /\ chunk_text no_encode char_decode 2 (repeat 97%N 3600) 1000 150
     = Returned
         (map (char_window (repeat 97%N 3600) CHUNK_SIZE_CHARS
                           (CHUNK_SIZE_CHARS - CHUNK_OVERLAP_CHARS))
              (seq 0 (window_count (len (repeat 97%N 3600))
                                   (CHUNK_SIZE_CHARS - CHUNK_OVERLAP_CHARS)))).
Proof.
  split; [vm_compute; reflexivity |]. split; [reflexivity |].
  split; [vm_compute; lia |].
  apply (chunk_text_fallback_windows no_encode char_decode 2
           (repeat 97%N 3600) 1000 150);
    [vm_compute; reflexivity | reflexivity | vm_compute; lia].
Defined.

(** X6: in token mode with an overlap smaller than the chunk size,
    [chunk_text] returns one chunk for every multiple of the step
    [chunk_size - overlap] below the number of tokens, in order: chunk
    [k] is the decoding of the [chunk_size] tokens from [k * step] on,
    its [start_char] is the length of the decoding of the tokens before
    them, and its [end_char] that plus the length of its own text. *)
Theorem chunk_text_token_windows
    {token : Type} (encode : str -> option (list token))
    (decode : list token -> str) (fuel : nat) (s : str)
    (tokens : list token) (cs ov : Z) :
  is_blank s = false -> encode s = Some tokens -> ov < cs ->
  (window_count (len tokens) (cs - ov) <= fuel)%nat ->
  chunk_text encode decode fuel s cs ov
  = Returned
      (map (token_window decode tokens cs (cs - ov))
           (seq 0 (window_count (len tokens) (cs - ov)))).
Proof.
  intros Hblank Henc Hstep Hfuel.
  rewrite (chunk_text_token_mode _ _ _ _ _ _ tokens) by assumption.
  apply (token_loop_windows decode tokens cs ov ltac:(lia)
           (window_count (len tokens) (cs - ov)) fuel 0%nat []);
    [| assumption].
  f_equal. lia.
Qed.

Lemma chunk_text_token_windows_witness :
  is_blank (lit "abcde") = false
  /\ char_encode (lit "abcde") = Some (lit "abcde") /\ 1 < 3
  /\ (window_count (len (lit "abcde")) (3 - 1) <= 3)%nat
  /\ chunk_text char_encode char_decode 3 (lit "abcde") 3 1
     = Returned
         (map (token_window char_decode (lit "abcde") 3 (3 - 1))
              (seq 0 (window_count (len (lit "abcde")) (3 - 1)))).
Proof.
  split; [reflexivity |]. split; [reflexivity |]. split; [lia |].
  split; [vm_compute; lia |].
  apply (chunk_text_token_windows char_encode char_decode 3 (lit "abcde")
           (lit "abcde") 3 1);
    [reflexivity | reflexivity | lia | vm_compute; lia].
Defined.

Lemma is_blank_nonempty (s : str) : is_blank s = false -> 0 < len s.
Proof.
  destruct s; [discriminate |]. intros _. unfold len. simpl. lia.
Qed.

Lemma window_count_le_length (s : str) :
  (window_count (len s) (CHUNK_SIZE_CHARS - CHUNK_OVERLAP_CHARS)
   <= length s)%nat.
Proof.
  unfold window_count, len, CHUNK_SIZE_CHARS, CHUNK_OVERLAP_CHARS.
  assert ((Z.of_nat (length s) + (4000 - 500) - 1) / (4000 - 500)
          <= Z.of_nat (length s)); [| lia].
  destruct (length s) as [| n]; [reflexivity |].
  apply Z.lt_succ_r, Z.div_lt_upper_bound; lia.
Qed.

(** X7: in the character fallback the chunks of a text that is not blank
    cover it from its first character to its last with exact offsets: the
    first chunk starts at [0], the last one ends at the length of the
    text, and every chunk holds exactly the characters of the text from
    its [start_char] to its [end_char], at most 4000 of them. *)
Theorem chunk_text_fallback_exact
    {token : Type} (encode : str -> option (list token))
    (decode : list token -> str) (s : str) (cs ov : Z) :
  is_blank s = false -> encode s = None ->
  exists chunks first final,
    chunk_text encode decode (length s) s cs ov = Returned chunks
    /\ head chunks = Some first /\ last chunks = Some final
    /\ start_char first = 0 /\ end_char final = len s
    /\ Forall (fun c =>
                 text c = slice s (start_char c) (end_char c)
                 /\ 0 <= start_char c /\ start_char c < end_char c
                 /\ end_char c <= len s
                 /\ len (text c) <= CHUNK_SIZE_CHARS)
              chunks.
Proof.
  intros Hblank Henc.
  pose proof (is_blank_nonempty s Hblank) as Hlen.
  rewrite (fallback_windows encode decode (length s) s cs ov
             Hblank Henc (window_count_le_length s)).
  set (step := CHUNK_SIZE_CHARS - CHUNK_OVERLAP_CHARS).
  assert (Hstep : 0 < step) by reflexivity.
  assert (Hsize : step <= CHUNK_SIZE_CHARS) by (vm_compute; discriminate).
  pose proof (window_count_covers (len s) step Hstep) as Hcov.
  pose proof (window_count_last (len s) step Hstep Hlen) as Hlast.
  destruct (window_count (len s) step) as [| m] eqn:Hm; [lia |].
  exists (map (char_window s CHUNK_SIZE_CHARS step) (seq 0 (S m))),
         (char_window s CHUNK_SIZE_CHARS step 0),
         (char_window s CHUNK_SIZE_CHARS step m).
  split; [reflexivity |]. split; [reflexivity |]. split.
  { rewrite seq_S, map_app. simpl. apply last_snoc. }
  split; [reflexivity |]. split.
  { unfold char_window. simpl. lia. }
  rewrite Forall_forall. intros c Hc.
  apply list_elem_of_fmap in Hc as (k & -> & Hk).
  apply elem_of_seq in Hk.
  assert (Hi : Z.of_nat k * step < len s) by nia.
  unfold char_window. cbn [text start_char end_char].
  split; [reflexivity |].
  rewrite len_slice by lia. lia.
Qed.

Lemma chunk_text_fallback_exact_witness :
  is_blank (lit "apple pie") = false
  /\ no_encode (lit "apple pie") = None
  /\ exists chunks first final,
       chunk_text no_encode char_decode (length (lit "apple pie"))
                  (lit "apple pie") 1000 150 = Returned chunks
       /\ head chunks = Some first /\ last chunks = Some final
       /\ start_char first = 0 /\ end_char final = len (lit "apple pie")
       /\ Forall (fun c =>
                    text c = slice (lit "apple pie") (start_char c) (end_char c)
                    /\ 0 <= start_char c /\ start_char c < end_char c
                    /\ end_char c <= len (lit "apple pie")
                    /\ len (text c) <= CHUNK_SIZE_CHARS)
                 chunks.
Proof.
  split; [reflexivity |]. split; [reflexivity |].
  apply (chunk_text_fallback_exact no_encode char_decode (lit "apple pie")
           1000 150); reflexivity.
Defined.

(** ** Symmetry of the score *)

Lemma SFmul_comm (x y : spec_float) : SF64mul x y = SF64mul y x.
Proof.
  unfold SF64mul, SFmul.
  destruct x as [sx | sx | | sx mx ex], y as [sy | sy | | sy my ey];
    try reflexivity; rewrite ?(xorb_comm sx sy); try reflexivity.
  rewrite (Pos.mul_comm mx my), (Z.add_comm ex ey). reflexivity.
Qed.

Lemma float_mul_comm (x y : float) : (x * y)%float = (y * x)%float.
Proof.
  apply Prim2SF_inj. rewrite !FloatAxioms.mul_spec. apply SFmul_comm.
Qed.

Lemma sum_products_comm (a b : vector) :
  np.sum_products a b = np.sum_products b a.
Proof.
  unfold np.sum_products. generalize 0%float as acc. revert b.
  induction a as [| x a IH]; intros [| y b] acc; try reflexivity.
  simpl. rewrite (float_mul_comm x y). apply IH.
Qed.

(** X8: the similarity does not depend on the order of its two
    arguments: the two calls return the same float, or both raise
    [ValueError]. *)
Theorem cosine_similarity_symmetric (vec1 vec2 : vector) :
  _cosine_similarity vec1 vec2 = _cosine_similarity vec2 vec1.
Proof.
  unfold _cosine_similarity, np.dot.
  rewrite (Nat.eqb_sym (length vec2) (length vec1)).
  destruct (length vec1 =? length vec2)%nat; [| reflexivity]. simpl.
  rewrite (sum_products_comm vec2 vec1).
  rewrite (orb_comm (np.norm vec2 =? 0)%float).
  rewrite (float_mul_comm (np.norm vec2)). reflexivity.
Qed.

(** ** What [search] raises *)

Lemma cosine_similarity_raises (q emb : vector) (e : exn) :
  _cosine_similarity q emb = Raise e <->
  length q <> length emb /\ e = ValueError.
Proof.
  unfold _cosine_similarity, np.dot.
  destruct (Nat.eqb_spec (length q) (length emb)) as [Heq | Hne]; simpl.
  - split; [| intros [Hne _]; contradiction].
    destruct (_ || _); discriminate.
  - split; [intros [= <-]; auto | intros [_ ->]; reflexivity].
Qed.

Lemma mapM_Raise {A B : Type} (f : A -> result B) (l : list A) (e : exn) :
  mapM f l = Raise e -> exists x, x ∈ l /\ f x = Raise e.
Proof.
  induction l as [| x l IH]; [discriminate |].
  rewrite mapM_cons. destruct (f x) as [y |] eqn:Hx.
  - destruct (mapM f l) as [k |]; [discriminate |].
    intros [= <-]. destruct (IH eq_refl) as (x' & Hin & Hx').
    exists x'. split; [right; assumption | assumption].
  - intros [= <-]. exists x. split; [left | assumption].
Qed.

Lemma enumerate_elem {A : Type} (l : list A) (i : nat) (a : A) :
  (i, a) ∈ enumerate l <-> l !! i = Some a.
Proof.
  unfold enumerate. rewrite elem_of_lookup_imap. split.
  - intros (j & b & [= -> ->] & Hb). assumption.
  - intros Ha. exists i, a. auto.
Qed.

Lemma similarities_raises (self : SimpleVectorStore) (q : vector) (e : exn) :
  similarities self q = Raise e <->
  e = ValueError
  /\ exists emb, emb ∈ embeddings self /\ length emb <> length q.
Proof.
  unfold similarities. split.
  - intros Hraise. apply mapM_Raise in Hraise as ([i emb] & Hin & Hcos).
    simpl in Hcos.
    destruct (_cosine_similarity q emb) as [sim |] eqn:Hsim; [discriminate |].
    injection Hcos as <-.
    apply cosine_similarity_raises in Hsim as [Hne ->].
    split; [reflexivity |]. exists emb. split; [| congruence].
    apply enumerate_elem in Hin. eapply list_elem_of_lookup_2. eassumption.
  - intros [-> (emb & Hin & Hne)].
    destruct (mapM _ _) as [sims |] eqn:Hmap.
    + exfalso. apply list_elem_of_lookup in Hin as [i Hi].
      apply mapM_Ok in Hmap.
      destruct (Forall2_lookup_l _ _ _ i (i, emb) Hmap) as (y & _ & Hy).
      { unfold enumerate. rewrite list_lookup_imap.
        unfold vector in *. rewrite Hi. reflexivity. }
      simpl in Hy.
      destruct (_cosine_similarity q emb) as [sim |] eqn:Hsim;
        [| discriminate].
      assert (Hr : _cosine_similarity q emb = Raise ValueError)
        by (apply cosine_similarity_raises; split; congruence).
      congruence.
    + apply mapM_Raise in Hmap as ([i emb'] & _ & Hcos). simpl in Hcos.
      destruct (_cosine_similarity q emb') as [sim |] eqn:Hsim;
        [discriminate |].
      injection Hcos as <-.
      apply cosine_similarity_raises in Hsim as [_ ->]. reflexivity.
Qed.

Lemma top_results_raises (self : SimpleVectorStore)
    (selected : list (nat * float)) (e : exn) :
  top_results self selected = Raise e ->
  e = IndexError
  /\ exists entry, entry ∈ selected
                   /\ (length (chunks self) <= fst entry)%nat.
Proof.
  unfold top_results. intros Hraise.
  apply mapM_Raise in Hraise as (entry & Hin & Hget).
  unfold getitem in Hget.
  destruct (chunks self !! fst entry) eqn:Hc; [discriminate |].
  injection Hget as <-. split; [reflexivity |].
  exists entry. split; [assumption |]. apply lookup_ge_None. assumption.
Qed.

(** The exceptions of [search]. *)
Lemma search_exceptions (self : SimpleVectorStore) (q : list float)
    (top_k : Z) :
  (search self q top_k = Raise ValueError <->
   exists emb, emb ∈ embeddings self /\ length emb <> length q)
  /\ (search self q top_k = Raise IndexError ->
      (length (chunks self) < length (embeddings self))%nat).
Proof.
  rewrite search_unfold.
  destruct (Z.eqb_spec (len (embeddings self)) 0) as [Hzero | Hpos].
  { apply len_zero_nil in Hzero. rewrite Hzero. split; [| discriminate].
    split; [discriminate |]. intros (emb & Hin & _). inversion Hin. }
  destruct (similarities self (np.array q)) as [sims |] eqn:Hsims.
  - assert (Hno : ~ exists emb, emb ∈ embeddings self /\ length emb <> length q).
    { intros Hex.
      assert (Hr : similarities self (np.array q) = Raise ValueError)
        by (apply similarities_raises; auto).
      congruence. }
    split.
    + split; [| intros Hex; contradiction].
      intros Hraise. apply top_results_raises in Hraise as [Hne _].
      discriminate Hne.
    + intros Hraise. apply top_results_raises in Hraise
        as (_ & entry & Hin & Hge).
      rewrite slice_from_start in Hin. apply (subseteq_take _ _ _) in Hin.
      rewrite sort_by_score_perm in Hin.
      destruct (similarities_entry _ _ _ _ Hsims Hin) as [Hlt _]. lia.
  - apply similarities_raises in Hsims as [-> Hex].
    split; [tauto | discriminate].
Qed.

(** X9: [search] raises [ValueError] exactly when the collection is not
    empty and one of its vectors has another length than the query; the
    only other exception it raises is [IndexError], and only when the
    store holds fewer chunks than vectors. *)
Theorem search_raises (self : SimpleVectorStore) (q : list float)
    (top_k : Z) :
  (search self q top_k = Raise ValueError <->
   exists emb, emb ∈ embeddings self /\ length emb <> length q)
  /\ (search self q top_k = Raise IndexError ->
      (length (chunks self) < length (embeddings self))%nat).
Proof. apply search_exceptions. Qed.

(** X10: a store with as many chunks as vectors, all of the length of the
    query, is searched without an exception for every [top_k], negative
    ones included, and the search returns no more results than there are
    vectors, nor more than a non-negative [top_k]. *)
Theorem search_never_raises (self : SimpleVectorStore) (q : list float)
    (top_k : Z) :
  length (chunks self) = length (embeddings self) ->
  (forall emb, emb ∈ embeddings self -> length emb = length q) ->
  exists hits,
    search self q top_k = Ok hits
    /\ (length hits <= length (embeddings self))%nat
    /\ (0 <= top_k -> len hits <= top_k).
Proof.
  intros Hparity Hdim.
  destruct (search self q top_k) as [hits | e] eqn:Hsearch.
  - exists hits. split; [reflexivity |].
    rewrite search_unfold in Hsearch.
    destruct (len (embeddings self) =? 0).
    { injection Hsearch as <-. simpl. split; [lia | unfold len; simpl; lia]. }
    destruct (similarities self (np.array q)) as [sims |] eqn:Hsims;
      [| discriminate].
    apply top_results_Ok, Forall2_length in Hsearch.
    unfold len. rewrite <- Hsearch. split.
    + rewrite slice_from_start, length_take, sort_by_score_length,
        (similarities_length _ _ _ Hsims). lia.
    + intros Hk. rewrite slice_first by assumption.
      rewrite length_take. lia.
  - exfalso. destruct (search_exceptions self q top_k) as [Hvalue Hindex].
    destruct e.
    + apply Hvalue in Hsearch as (emb & Hin & Hne). apply Hne, Hdim, Hin.
    + apply Hindex in Hsearch. lia.
Qed.

Lemma search_never_raises_witness :
  length (chunks pie_store) = length (embeddings pie_store)
  /\ (forall emb, emb ∈ embeddings pie_store -> length emb = length pie_query)
  /\ exists hits,
       search pie_store pie_query (-7) = Ok hits
       /\ (length hits <= length (embeddings pie_store))%nat
       /\ (0 <= -7 -> len hits <= -7).
Proof.
  assert (Hdim : forall emb, emb ∈ embeddings pie_store ->
                             length emb = length pie_query).
  { intros emb Hin. simpl in Hin.
    repeat (apply elem_of_cons in Hin as [-> | Hin]; [reflexivity |]).
    inversion Hin. }
  split; [reflexivity |]. split; [exact Hdim |].
  apply (search_never_raises pie_store pie_query (-7) eq_refl Hdim).
Defined.

(** ** The registry and the storage directory *)




Lemma init_doc_id (d : string) (fs : gmap string file) :
  doc_id (__init__ d fs) = d.
Proof.
  unfold __init__, _load. simpl. destruct (fs !! _) as [[] |]; reflexivity.
Qed.




(** What [store_document] leaves behind when it does not raise. *)
Lemma store_document_world (writable : string -> bool) (d : string)
    (chunks : list Chunk) (embeddings : list (list float)) (w : world) :
  registry_keyed w ->
  length chunks = length embeddings ->
  store_document writable d chunks embeddings w
  = (Ok (len chunks),
     mkWorld (<[d := mkStore d (map np.array embeddings) chunks]> (_stores w))
             (_save writable (mkStore d (map np.array embeddings) chunks)
                    (files w))).
Proof.
  intros Hkeyed Hparity. unfold store_document, add.
  replace (negb (len chunks =? len embeddings)) with false
    by (unfold len; rewrite Hparity, Z.eqb_refl; reflexivity).
  unfold get_or_create_store.
  destruct (_stores w !! d) as [store |] eqn:Hstore; simpl.
  - rewrite (Hkeyed d store Hstore). reflexivity.
  - rewrite init_doc_id, insert_insert_eq. reflexivity.
Qed.

Lemma store_document_mismatch (writable : string -> bool) (d : string)
    (chunks : list Chunk) (embeddings : list (list float)) (w : world) :
  length chunks <> length embeddings ->
  store_document writable d chunks embeddings w = (Raise ValueError, w).
Proof.
  intros Hne. unfold store_document. rewrite (len_differs _ _ Hne).
  reflexivity.
Qed.

Lemma search_document_world (d : string) (q : list float) (top_k : Z)
    (w : world) :
  snd (search_document d q top_k w)
  = snd (get_or_create_store d w).
Proof.
  unfold search_document. destruct (get_or_create_store d w) as [store w'].
  destruct (search store q top_k); reflexivity.
Qed.






(** A save that does not reach the disk is not mirrored: after
    [store_document] of a document whose identifier holds a separator the
    registry holds its chunks, and a store opened for it on the storage
    directory holds none. *)
Example unsaved_document_out_of_step :
  _stores (snd (store_document flat_directory "a/b" pie_chunks pie_vectors
                               fresh_world)) !! "a/b"
  = Some slash_store
  /\ __init__ "a/b"
       (files (snd (store_document flat_directory "a/b" pie_chunks
                                   pie_vectors fresh_world)))
     = mkStore "a/b" [] [].
Proof. split; vm_compute; reflexivity. Qed.


Lemma search_document_result (d : string) (q : list float) (top_k : Z)
    (w w' : world) :
  fst (get_or_create_store d w') = fst (get_or_create_store d w) ->
  fst (search_document d q top_k w') = fst (search_document d q top_k w).
Proof.
  intros Hstore. unfold search_document.
  destruct (get_or_create_store d w') as [s1 w1].
  destruct (get_or_create_store d w) as [s2 w2].
  simpl in Hstore. subst s2. destruct (search s1 q top_k); reflexivity.
Qed.



(** ** The service *)

(** *** Strings *)

Lemma lstrip_nil (s : str) : lstrip s = [] <-> forallb isspace s = true.
Proof.
  induction s as [| c s IH]; simpl; [tauto |].
  destruct (isspace c); simpl; [exact IH |]. split; discriminate.
Qed.

Lemma forallb_reverse {A : Type} (P : A -> bool) (l : list A) :
  forallb P (rev l) = forallb P l.
Proof.
  induction l as [| a l IH]; [reflexivity |].
  simpl. rewrite forallb_app, IH. simpl.
  rewrite andb_true_r. apply andb_comm.
Qed.

Lemma lstrip_spaces (l : str) :
  forallb isspace (lstrip l) = true -> lstrip l = [].
Proof.
  induction l as [| a l IH]; [reflexivity |]. simpl.
  destruct (isspace a) eqn:Ha; [exact IH |].
  simpl. rewrite Ha. discriminate.
Qed.

(** A text is blank when all its characters are whitespace. *)
Lemma is_blank_spec (s : str) : is_blank s = forallb isspace s.
Proof.
  unfold is_blank, strip, rstrip.
  destruct s as [| c s]; [reflexivity |].
  change (negb (truthy (c :: s))) with false. rewrite orb_false_l.
  destruct (forallb isspace (c :: s)) eqn:Hall.
  - apply lstrip_nil in Hall. rewrite Hall. reflexivity.
  - apply Z.eqb_neq. intros Hlen. apply len_zero_nil in Hlen.
    apply (f_equal (@rev char)) in Hlen. rewrite rev_involutive in Hlen.
    change (rev []) with (@nil char) in Hlen. apply lstrip_nil in Hlen.
    rewrite forallb_reverse in Hlen.
    apply lstrip_spaces, lstrip_nil in Hlen. congruence.
Qed.

Lemma forallb_join (P : char -> bool) (sep : str) (parts : list str) :
  forallb P sep = true ->
  forallb P (join sep parts) = forallb (forallb P) parts.
Proof.
  intros Hsep. induction parts as [| p rest IH]; [reflexivity |].
  destruct rest as [| q rest].
  - simpl. rewrite andb_true_r. reflexivity.
  - change (join sep (p :: q :: rest)) with (p ++ sep ++ join sep (q :: rest)).
    rewrite !forallb_app, Hsep, IH. reflexivity.
Qed.

Lemma startswith_app (sub rest : str) : startswith (sub ++ rest) sub = true.
Proof.
  induction sub as [| c sub IH]; [destruct rest; reflexivity |].
  simpl. rewrite N.eqb_refl. exact IH.
Qed.

Lemma contains_unfold (sub s : str) :
  contains sub s
  = startswith s sub
    || match s with
       | [] => false
       | _ :: s' => contains sub s'
       end.
Proof. destruct s; reflexivity. Qed.

Lemma contains_app_r (sub before s : str) :
  contains sub s = true -> contains sub (before ++ s) = true.
Proof.
  intros Hs. induction before as [| c before IH]; [exact Hs |].
  simpl. rewrite IH. apply orb_true_r.
Qed.

(** A text contains what it goes on with after a prefix. *)
Lemma contains_infix (sub before after : str) :
  contains sub (before ++ sub ++ after) = true.
Proof.
  apply contains_app_r. rewrite contains_unfold, startswith_app.
  reflexivity.
Qed.

(** A prefix without the first character of [sub] adds no occurrence of
    [sub]. *)
Lemma contains_skip (c : char) (sub before s : str) :
  forallb (fun a => negb (a =? c)%N) before = true ->
  contains (c :: sub) (before ++ s) = contains (c :: sub) s.
Proof.
  induction before as [| a before IH]; [reflexivity |].
  simpl. intros Hall. apply andb_prop in Hall as [Ha Hall].
  apply negb_true_iff in Ha. rewrite Ha. simpl. apply IH. exact Hall.
Qed.

(** *** [extract_text_from_pdf] *)

Lemma page_texts_Returns (texts text_parts : list str) :
  page_texts (map Returns texts) text_parts
  = Returns (text_parts ++ List.filter truthy texts).
Proof.
  revert text_parts.
  induction texts as [| t texts IH]; intros text_parts; simpl.
  - rewrite app_nil_r. reflexivity.
  - change (page_texts (Returns t :: map Returns texts) text_parts)
      with (page_texts (map Returns texts)
              (if truthy t then text_parts ++ [t] else text_parts)).
    rewrite IH. destruct (truthy t); [rewrite <- app_assoc |]; reflexivity.
Qed.

Lemma forallb_is_blank_filter (texts : list str) :
  forallb is_blank (List.filter truthy texts) = forallb is_blank texts.
Proof.
  induction texts as [| t texts IH]; [reflexivity |]. simpl.
  destruct t as [| c t]; simpl; [exact IH |]. rewrite IH. reflexivity.
Qed.

Lemma is_blank_join (parts : list str) :
  is_blank (join (newline ++ newline) parts) = forallb is_blank parts.
Proof.
  rewrite is_blank_spec, forallb_join by reflexivity.
  induction parts as [| p parts IH]; [reflexivity |].
  simpl. rewrite IH, is_blank_spec. reflexivity.
Qed.

Section ExtractionFacts.

Variable PdfReader : list Byte.byte -> fallible (list (fallible str)).

(** X13: when every page of a PDF can be read, the file is rejected as
    empty exactly when the text of each page is empty or all whitespace;
    otherwise the extracted text is the texts of the pages that are not
    empty, joined by blank lines, and the page count counts every page,
    the empty ones included. *)
Theorem extract_text_from_pdf_blank_pages
    (pdf_bytes : list Byte.byte) (texts : list str) :
  PdfReader pdf_bytes = Returns (map Returns texts) ->
  extract_text_from_pdf PdfReader pdf_bytes
  = if forallb is_blank texts then
      Raises (lit "Failed to extract text from PDF: "
              ++ lit "PDF appears to be empty or contains no extractable text")
    else
      Returns (join (newline ++ newline) (List.filter truthy texts),
               len texts).
Proof.
  intros Hread. unfold extract_text_from_pdf. rewrite Hread.
  change (mbind ?k (Returns ?a)) with (k a). cbv beta.
  rewrite page_texts_Returns.
  change (mbind ?k (Returns ?a)) with (k a). cbv beta.
  rewrite app_nil_l.
  change (negb (truthy ?t) || (len (strip ?t) =? 0)) with (is_blank t).
  rewrite is_blank_join, forallb_is_blank_filter.
  unfold len. rewrite length_map.
  destruct (forallb is_blank texts); reflexivity.
Qed.

Lemma extract_text_from_pdf_not_blank
    (pdf_bytes : list Byte.byte) (text : str) (page_count : Z) :
  extract_text_from_pdf PdfReader pdf_bytes = Returns (text, page_count) ->
  is_blank text = false.
Proof.
  unfold extract_text_from_pdf.
  destruct (PdfReader pdf_bytes) as [pages | message]; [| discriminate].
  change (mbind ?k (Returns ?a)) with (k a). cbv beta.
  destruct (page_texts pages []) as [parts | message]; [| discriminate].
  change (mbind ?k (Returns ?a)) with (k a). cbv beta.
  change (negb (truthy ?t) || (len (strip ?t) =? 0)) with (is_blank t).
  destruct (is_blank _) eqn:Hblank; [discriminate |].
  intros [= <- _]. exact Hblank.
Qed.

End ExtractionFacts.

Lemma extract_text_from_pdf_blank_pages_witness :
  two_pages [] = Returns (map Returns [[]; lit "apple pie"])
  /\ extract_text_from_pdf two_pages [] = Returns (lit "apple pie", 2).
Proof.
  split; [reflexivity |].
  exact (extract_text_from_pdf_blank_pages two_pages [] [[]; lit "apple pie"]
           eq_refl).
Defined.

(** *** The handlers *)

Lemma store_document_cases (writable : string -> bool) (d : string)
    (chunks : list Chunk) (embeddings : list (list float)) (w : world) :
  registry_keyed w ->
  (length chunks = length embeddings
   /\ store_document writable d chunks embeddings w
      = (Ok (len chunks),
         mkWorld
           (<[d := mkStore d (map np.array embeddings) chunks]> (_stores w))
           (_save writable (mkStore d (map np.array embeddings) chunks)
                  (files w))))
  \/ exists e, store_document writable d chunks embeddings w = (Raise e, w).
Proof.
  intros Hkeyed.
  destruct (decide (length chunks = length embeddings)) as [Heq | Hne].
  - left. split; [exact Heq |]. apply store_document_world; assumption.
  - right. exists ValueError. apply store_document_mismatch. exact Hne.
Qed.

(** Both loops only append to the chunks they start from. *)
Lemma token_loop_extends {token : Type} (decode : list token -> str)
    (fuel : nat) (tokens : list token) (cs ov : Z) :
  forall i idx chunks,
    exists more,
      produced (token_loop decode fuel tokens cs ov i idx chunks)
      = chunks ++ more.
Proof.
  induction fuel as [| fuel IH]; intros i idx chunks;
    rewrite token_loop_unfold; destruct (i <? len tokens); simpl;
    try (exists []; rewrite app_nil_r; reflexivity).
  destruct (_ >=? _); simpl; [eexists; reflexivity |].
  destruct (IH (if i + (cs - ov) =? 0 then cs - ov else i + (cs - ov))
               (idx + 1)
               (chunks ++ [mkChunk (decode (slice tokens i (i + cs))) idx
                             (len (decode (slice tokens 0 i)))
                             (len (decode (slice tokens 0 i))
                              + len (decode (slice tokens i (i + cs))))]))
    as [more ->].
  rewrite <- app_assoc. eexists. reflexivity.
Qed.

Lemma char_loop_extends (fuel : nat) (s : str) (cs ov : Z) :
  forall i idx chunks,
    exists more, produced (char_loop fuel s cs ov i idx chunks) = chunks ++ more.
Proof.
  induction fuel as [| fuel IH]; intros i idx chunks;
    rewrite char_loop_unfold; destruct (i <? len s); simpl;
    try (exists []; rewrite app_nil_r; reflexivity).
  destruct (_ >=? _); simpl; [eexists; reflexivity |].
  destruct (IH (if i + (cs - ov) =? 0 then cs - ov else i + (cs - ov))
               (idx + 1)
               (chunks ++ [mkChunk (slice s i (Z.min (i + cs) (len s))) idx
                             i (Z.min (i + cs) (len s))]))
    as [more ->].
  rewrite <- app_assoc. eexists. reflexivity.
Qed.

(** A text that is not blank gives at least one chunk, if the tokenizer
    gives at least one token for it. *)
Lemma chunk_text_nonempty {token : Type} (encode : str -> option (list token))
    (decode : list token -> str) (fuel : nat) (s : str) (cs ov : Z)
    (chunks : list Chunk) :
  (forall tokens, encode s = Some tokens -> tokens <> []) ->
  is_blank s = false ->
  chunk_text encode decode fuel s cs ov = Returned chunks ->
  chunks <> [].
Proof.
  intros Htokens Hblank.
  destruct (encode s) as [tokens |] eqn:Henc.
  - rewrite (chunk_text_token_mode _ _ _ _ _ _ tokens) by assumption.
    specialize (Htokens tokens eq_refl).
    rewrite token_loop_unfold.
    replace (0 <? len tokens) with true
      by (symmetry; apply Z.ltb_lt; destruct tokens;
          [congruence | unfold len; simpl; lia]).
    destruct fuel as [| fuel]; [discriminate |]. cbv zeta.
    destruct (_ >=? _); [intros [= <-]; discriminate |].
    match goal with
    | |- token_loop decode fuel tokens cs ov ?i ?idx ?acc = _ -> _ =>
        destruct (token_loop_extends decode fuel tokens cs ov i idx acc)
          as [more Hmore]
    end.
    intros Hrun. rewrite Hrun in Hmore. simpl in Hmore. subst chunks.
    discriminate.
  - rewrite chunk_text_char_mode by assumption.
    rewrite char_loop_unfold.
    replace (0 <? len s) with true
      by (symmetry; apply Z.ltb_lt, is_blank_nonempty; assumption).
    destruct fuel as [| fuel]; [discriminate |]. cbv zeta.
    destruct (_ >=? _); [intros [= <-]; discriminate |].
    match goal with
    | |- char_loop fuel s ?cs ?ov ?i ?idx ?acc = _ -> _ =>
        destruct (char_loop_extends fuel s cs ov i idx acc) as [more Hmore]
    end.
    intros Hrun. rewrite Hrun in Hmore. simpl in Hmore. subst chunks.
    discriminate.
Qed.

(** A store whose vectors all have the length of the query, and a chunk
    each, gives as many results as asked for, or all it has. *)
Lemma search_finds (self : SimpleVectorStore) (q : list float) (top_k : Z) :
  0 <= top_k ->
  length (chunks self) = length (embeddings self) ->
  (forall emb, emb ∈ embeddings self -> length emb = length q) ->
  exists hits,
    search self q top_k = Ok hits
    /\ length hits = Nat.min (Z.to_nat top_k) (length (embeddings self)).
Proof.
  intros Hk Hparity Hdim.
  destruct (search self q top_k) as [hits | e] eqn:Hsearch.
  - exists hits. split; [reflexivity |].
    rewrite search_unfold in Hsearch.
    destruct (Z.eqb_spec (len (embeddings self)) 0) as [Hzero | Hpos].
    { injection Hsearch as <-. apply len_zero_nil in Hzero. rewrite Hzero.
      simpl. lia. }
    destruct (similarities self (np.array q)) as [sims |] eqn:Hsims;
      [| discriminate].
    apply top_results_Ok, Forall2_length in Hsearch.
    rewrite <- Hsearch, slice_first, length_take, sort_by_score_length,
      (similarities_length _ _ _ Hsims) by assumption.
    reflexivity.
  - exfalso. destruct (search_exceptions self q top_k) as [Hvalue Hindex].
    destruct e.
    + apply Hvalue in Hsearch as (emb & Hin & Hne). apply Hne, Hdim, Hin.
    + apply Hindex in Hsearch. lia.
Qed.

Section ServiceFacts.

Context {token : Type}.
Variable encode : str -> option (list token).
Variable decode : list token -> str.
Variable PdfReader : list Byte.byte -> fallible (list (fallible str)).
Variable client_embeddings_create :
  str -> list str -> fallible (list (list float)).
Variable client_post : str -> Payload -> fallible httpx.Response.
Variable str_of_exn : exn -> str.
Variable writable : string -> bool.
Variable validate_answer : JSON -> fallible str.

(** What an upload leaves behind, by its reply. *)
Lemma upload_file_outcome (fuel : nat) (file : UploadFile)
    (uuid4 : string) (s s' : server) (r : reply schemas.UploadResponse) :
  registry_keyed (db s) ->
  upload_file encode decode PdfReader client_embeddings_create str_of_exn
              writable fuel file uuid4 s
  = (Some r, s') ->
  match r with
  | Model response =>
      exists (extracted : str) (page_count : Z) (chunks : list Chunk)
             (embeddings : list (list float)),
        content_type file = Some (lit "application/pdf")
        /\ len (read file) <= MAX_SIZE
        /\ extract_text_from_pdf PdfReader (read file)
           = Returns (extracted, page_count)
        /\ chunk_text encode decode fuel extracted
                      CHUNK_SIZE_TOKENS CHUNK_OVERLAP_TOKENS
           = Returned chunks
        /\ chunks <> []
        /\ client_embeddings_create EMBEDDING_MODEL (map text chunks)
           = Returns embeddings
        /\ length embeddings = length chunks
        /\ response
           = schemas.mkUploadResponse uuid4 (len chunks) (lit "ready")
        /\ db s'
           = mkWorld
               (<[uuid4 := mkStore uuid4 (map np.array embeddings) chunks]>
                  (_stores (db s)))
               (_save writable
                      (mkStore uuid4 (map np.array embeddings) chunks)
                      (files (db s)))
        /\ outbound s'
           = outbound s ++ [embeddings_create EMBEDDING_MODEL (map text chunks)]
  | JSONResponse code content =>
      db s' = db s
      /\ schemas.provider content = Some (lit "Server")
      /\ schemas.status content = Some code
      /\ (code = 400 \/ code = 500)
  end.
Proof.
  intros Hkeyed. unfold upload_file.
  destruct (bool_decide _) eqn:Htype; simpl negb; cbv iota;
    [| intros [= <- <-]; simpl; auto].
  apply bool_decide_eq_true in Htype.
  destruct (Z.gtb_spec (len (read file)) MAX_SIZE) as [Hbig | Hsize];
    [intros [= <- <-]; simpl; auto |].
  unfold upload_steps, mbind, service_bind, reraise, pure, raise, loop.
  destruct (extract_text_from_pdf PdfReader (read file))
    as [[extracted page_count] | message] eqn:Hextract;
    [| intros [= <- <-]; simpl; auto].
  cbn [fst].
  destruct (chunk_text encode decode fuel extracted CHUNK_SIZE_TOKENS
                       CHUNK_OVERLAP_TOKENS) as [chunks | partial] eqn:Hchunks;
    [| discriminate].
  destruct (Z.eqb_spec (len chunks) 0) as [Hnone | Hsome];
    [intros [= <- <-]; simpl; auto |].
  assert (Hchunk : chunks <> []) by (intros ->; apply Hsome; reflexivity).
  unfold create_embeddings, send, mret, service_ret, reraise, store.
  destruct (truthy (map text chunks)) eqn:Htexts;
    [| destruct chunks; [congruence | discriminate Htexts]].
  cbv beta iota delta [negb].
  destruct (client_embeddings_create EMBEDDING_MODEL (map text chunks))
    as [embeddings | message] eqn:Hembed;
    [| intros [= <- <-]; simpl; auto].
  cbv beta iota. cbn [db outbound].
  destruct (store_document_cases writable uuid4 chunks embeddings (db s)
              Hkeyed)
    as [[Hparity ->] | [e ->]].
  - intros [= <- <-]. simpl.
    exists extracted, page_count, chunks, embeddings. auto 12.
  - intros [= <- <-]. simpl. auto.
Qed.

(** X14: an upload is all or nothing. A reply that is not an error means
    that the file was a PDF within the size limit whose text was
    extracted and chunked, that the embeddings endpoint was asked once,
    for the texts of all chunks, and gave one vector for each, and that
    the document is open under the new identifier with exactly these
    chunks and vectors, the storage directory being what [_save] of this
    store leaves. An error reply is attributed to the server with status
    400 or 500, and leaves the registry and the storage directory as they
    were. *)
Theorem upload_file_all_or_nothing (fuel : nat) (file : UploadFile)
    (uuid4 : string) (s s' : server) (r : reply schemas.UploadResponse) :
  registry_keyed (db s) ->
  upload_file encode decode PdfReader client_embeddings_create str_of_exn
              writable fuel file uuid4 s
  = (Some r, s') ->
  match r with
  | Model response =>
      exists (extracted : str) (page_count : Z) (chunks : list Chunk)
             (embeddings : list (list float)),
        content_type file = Some (lit "application/pdf")
        /\ len (read file) <= MAX_SIZE
        /\ extract_text_from_pdf PdfReader (read file)
           = Returns (extracted, page_count)
        /\ chunk_text encode decode fuel extracted
                      CHUNK_SIZE_TOKENS CHUNK_OVERLAP_TOKENS
           = Returned chunks
        /\ chunks <> []
        /\ client_embeddings_create EMBEDDING_MODEL (map text chunks)
           = Returns embeddings
        /\ length embeddings = length chunks
        /\ response
           = schemas.mkUploadResponse uuid4 (len chunks) (lit "ready")
        /\ db s'
           = mkWorld
               (<[uuid4 := mkStore uuid4 (map np.array embeddings) chunks]>
                  (_stores (db s)))
               (_save writable
                      (mkStore uuid4 (map np.array embeddings) chunks)
                      (files (db s)))
        /\ outbound s'
           = outbound s ++ [embeddings_create EMBEDDING_MODEL (map text chunks)]
  | JSONResponse code content =>
      db s' = db s
      /\ schemas.provider content = Some (lit "Server")
      /\ schemas.status content = Some code
      /\ (code = 400 \/ code = 500)
  end.
Proof. apply upload_file_outcome. Qed.

(** X15: every upload is answered. Whatever the file and whatever the
    PDF reader and the embeddings endpoint do, the handler lets no
    exception escape and its chunking loop ends: under every large enough
    bound on the iterations the call returns a reply. *)
Theorem upload_file_returns (file : UploadFile) (uuid4 : string) (s : server) :
  exists fuel : nat,
    forall fuel' : nat,
      (fuel <= fuel')%nat ->
      exists (r : reply schemas.UploadResponse) (s' : server),
        upload_file encode decode PdfReader client_embeddings_create
                    str_of_exn writable fuel' file uuid4 s
        = (Some r, s').
Proof.
  unfold upload_file.
  destruct (negb (bool_decide _));
    [exists 0%nat; intros; eexists; eexists; reflexivity |].
  destruct (_ >? _);
    [exists 0%nat; intros; eexists; eexists; reflexivity |].
  unfold upload_steps, mbind, service_bind, reraise, pure, raise, loop.
  destruct (extract_text_from_pdf PdfReader (read file))
    as [[extracted page_count] | message];
    [| exists 0%nat; intros; eexists; eexists; reflexivity].
  cbn [fst].
  destruct (chunk_text_returns encode decode extracted CHUNK_SIZE_TOKENS
              CHUNK_OVERLAP_TOKENS eq_refl) as (fuel & chunks & Hrun).
  exists fuel. intros fuel' Hle. rewrite (Hrun fuel' Hle).
  destruct (len chunks =? 0); [eexists; eexists; reflexivity |].
  destruct (create_embeddings client_embeddings_create (map text chunks) s)
    as [[[embeddings | message] |] s1] eqn:Hembed.
  - unfold store.
    destruct (store_document writable uuid4 chunks embeddings (db s1))
      as [[n | e] w];
      eexists; eexists; reflexivity.
  - eexists; eexists; reflexivity.
  - exfalso. revert Hembed. unfold create_embeddings, reraise, send.
    destruct (negb _); [discriminate |].
    destruct (client_embeddings_create _ _); discriminate.
Qed.

(** X16: the reply that no chunks were created is never given, as long
    as the tokenizer gives at least one token for a text that is not
    empty: a text that was extracted is not blank, and a text that is not
    blank has a first chunk. *)
Theorem upload_file_never_without_chunks (fuel : nat) (file : UploadFile)
    (uuid4 : string) (s s' : server) (code : Z)
    (content : schemas.ErrorResponse) :
  (forall (t : str) (tokens : list token),
     encode t = Some tokens -> t <> [] -> tokens <> []) ->
  upload_file encode decode PdfReader client_embeddings_create str_of_exn
              writable fuel file uuid4 s
  = (Some (JSONResponse code content), s') ->
  schemas.details content
  <> Some (lit "No chunks created from PDF. PDF may be empty or unreadable.").
Proof.
  intros Htokens. unfold upload_file.
  destruct (negb (bool_decide _)); [intros [= <- <- <-]; discriminate |].
  destruct (_ >? _); [intros [= <- <- <-]; discriminate |].
  unfold upload_steps, mbind, service_bind, reraise, pure, raise, loop.
  destruct (extract_text_from_pdf PdfReader (read file))
    as [[extracted page_count] | message] eqn:Hextract;
    [| intros [= <- <- <-]; simpl; intros Heq;
       apply (f_equal (fun o => match o with
                                | Some (c :: _) => c
                                | _ => 0%N
                                end)) in Heq;
       discriminate Heq].
  cbn [fst].
  apply extract_text_from_pdf_not_blank in Hextract.
  destruct (chunk_text encode decode fuel extracted CHUNK_SIZE_TOKENS
                       CHUNK_OVERLAP_TOKENS) as [chunks | partial] eqn:Hchunks;
    [| discriminate].
  apply chunk_text_nonempty in Hchunks;
    [| intros tokens Henc; apply (Htokens extracted tokens Henc);
       intros ->; discriminate Hextract
     | assumption].
  destruct (Z.eqb_spec (len chunks) 0) as [Hnone | Hsome];
    [apply len_zero_nil in Hnone; congruence |].
  destruct (create_embeddings client_embeddings_create (map text chunks) s)
    as [[[embeddings | message] |] s1] eqn:Hembed.
  - unfold store.
    destruct (store_document writable uuid4 chunks embeddings (db s1))
      as [[n | e] w];
      [discriminate |].
    intros [= <- <- <-]; simpl; intros Heq.
    apply (f_equal (fun o => match o with
                             | Some (c :: _) => c
                             | _ => 0%N
                             end)) in Heq.
    discriminate Heq.
  - intros [= <- <- <-]; simpl; intros Heq.
    apply (f_equal (fun o => match o with
                             | Some (c :: _) => c
                             | _ => 0%N
                             end)) in Heq.
    discriminate Heq.
  - discriminate.
Qed.

(** X23: a document can be searched as soon as its upload has been
    answered. If the embeddings endpoint gives vectors of the length of
    the query, a search of the new identifier for five results raises
    nothing and finds five chunks of the document, or all of them when
    there are fewer; it always finds one. *)
Theorem uploaded_document_is_found (fuel : nat) (file : UploadFile)
    (uuid4 : string) (s s' : server) (response : schemas.UploadResponse)
    (q : list float) :
  registry_keyed (db s) ->
  upload_file encode decode PdfReader client_embeddings_create str_of_exn
              writable fuel file uuid4 s
  = (Some (Model response), s') ->
  (forall (texts : list str) (vectors : list (list float)) (v : list float),
     client_embeddings_create EMBEDDING_MODEL texts = Returns vectors ->
     v ∈ vectors -> length v = length q) ->
  exists results : list Source,
    fst (search_document (schemas.upload_doc_id response) q 5 (db s'))
    = Ok results
    /\ len results = Z.min 5 (schemas.upload_chunk_count response)
    /\ results <> [].
Proof.
  intros Hkeyed Hrun Hdim.
  apply upload_file_outcome in Hrun; [| assumption].
  destruct Hrun as (extracted & page_count & cs & vs & _ & _ & _
                    & _ & Hchunks & Hembed & Hparity & -> & Hdb & _).
  cbn [schemas.upload_doc_id schemas.upload_chunk_count].
  unfold search_document, get_or_create_store. rewrite Hdb.
  cbn [_stores files]. rewrite lookup_insert_eq.
  destruct (search_finds (mkStore uuid4 (map np.array vs) cs) q 5)
    as (hits & -> & Hhits).
  - lia.
  - cbn [chunks embeddings]. rewrite length_map. symmetry. exact Hparity.
  - cbn [embeddings]. unfold np.array. rewrite map_id.
    intros emb Hin. eapply Hdim; eassumption.
  - cbn [embeddings] in Hhits. rewrite length_map in Hhits.
    eexists. split; [reflexivity |].
    assert (Hsome : (0 < length cs)%nat)
      by (destruct cs; [congruence | simpl; lia]).
    split.
    + unfold len. rewrite length_map, Hhits, Hparity. lia.
    + intros Hnil. apply (f_equal (@length Source)) in Hnil.
      rewrite length_map, Hhits, Hparity in Hnil. cbn [length] in Hnil. lia.
Qed.

End ServiceFacts.

Lemma fresh_world_keyed : registry_keyed fresh_world.
Proof.
  intros d store Hd.
  change (_stores fresh_world) with (∅ : gmap string SimpleVectorStore) in Hd.
  rewrite lookup_empty in Hd. discriminate Hd.
Qed.

Lemma upload_file_all_or_nothing_witness :
  registry_keyed fresh_world
  /\ exists (s' : server) (chunks : list Chunk) (embeddings : list (list float)),
       upload_file no_encode char_decode two_pages unit_embeddings index_text
                   flat_directory 1 pie_file "pies" (mkServer fresh_world [])
       = (Some (Model (schemas.mkUploadResponse "pies" 1 (lit "ready"))), s')
       /\ length embeddings = length chunks
       /\ _stores (db s') !! "pies"
          = Some (mkStore "pies" (map np.array embeddings) chunks).
Proof.
  split; [exact fresh_world_keyed |].
  assert (Hrun :
            upload_file no_encode char_decode two_pages unit_embeddings
                        index_text flat_directory 1 pie_file "pies"
                        (mkServer fresh_world [])
            = (Some (Model (schemas.mkUploadResponse "pies" 1 (lit "ready"))),
               snd (upload_file no_encode char_decode two_pages
                                unit_embeddings index_text flat_directory 1
                                pie_file "pies"
                                (mkServer fresh_world []))))
    by (vm_compute; reflexivity).
  destruct (upload_file_all_or_nothing
              no_encode char_decode two_pages unit_embeddings index_text
              flat_directory 1 pie_file "pies" (mkServer fresh_world []) _ _
              fresh_world_keyed Hrun)
    as (extracted & page_count & chunks & embeddings & _ & _ & _ & _ & _ & _
        & Hparity & _ & Hdb & _).
  eexists. exists chunks, embeddings.
  split; [exact Hrun |]. split; [exact Hparity |].
  rewrite Hdb. apply lookup_insert_eq.
Defined.

Lemma upload_file_never_without_chunks_witness :
  (forall (t : str) (tokens : list char),
     char_encode t = Some tokens -> t <> [] -> tokens <> [])
  /\ upload_file char_encode char_decode two_pages no_embeddings index_text
                 flat_directory 1 pie_file "pies" (mkServer fresh_world [])
     = (Some (JSONResponse 500
                (schemas.mkErrorResponse
                   (lit "Upload and indexing failed")
                   (Some (lit "Server")) (Some 500)
                   (Some (lit "Embedding creation failed: Failed to create embeddings: Connection error.")))),
        mkServer fresh_world
                 [embeddings_create EMBEDDING_MODEL [lit "apple pie"]])
  /\ Some (lit "Embedding creation failed: Failed to create embeddings: Connection error.")
     <> Some (lit "No chunks created from PDF. PDF may be empty or unreadable.").
Proof.
  assert (Htokens : forall (t : str) (tokens : list char),
             char_encode t = Some tokens -> t <> [] -> tokens <> [])
    by (intros t tokens [= <-] Ht; exact Ht).
  split; [exact Htokens |]. split; [reflexivity |].
  exact (upload_file_never_without_chunks
           char_encode char_decode two_pages no_embeddings index_text
           flat_directory 1 pie_file "pies" (mkServer fresh_world []) _ 500 _
           Htokens eq_refl).
Defined.

Lemma unit_embeddings_length (texts : list str) (vectors : list (list float))
    (v : list float) :
  unit_embeddings EMBEDDING_MODEL texts = Returns vectors ->
  v ∈ vectors -> length v = length pie_query.
Proof.
  intros [= <-] Hin. apply list_elem_of_fmap in Hin as (t & -> & _).
  reflexivity.
Qed.

Lemma uploaded_document_is_found_witness :
  registry_keyed fresh_world
  /\ (forall (texts : list str) (vectors : list (list float)) (v : list float),
        unit_embeddings EMBEDDING_MODEL texts = Returns vectors ->
        v ∈ vectors -> length v = length pie_query)
  /\ exists s' : server,
       upload_file no_encode char_decode two_pages unit_embeddings index_text
                   flat_directory 1 pie_file "pies" (mkServer fresh_world [])
       = (Some (Model (schemas.mkUploadResponse "pies" 1 (lit "ready"))), s')
       /\ exists results : list Source,
            fst (search_document "pies" pie_query 5 (db s')) = Ok results
            /\ len results = 1
            /\ results <> [].
Proof.
  split; [exact fresh_world_keyed |].
  split; [exact unit_embeddings_length |].
  assert (Hrun :
            upload_file no_encode char_decode two_pages unit_embeddings
                        index_text flat_directory 1 pie_file "pies"
                        (mkServer fresh_world [])
            = (Some (Model (schemas.mkUploadResponse "pies" 1 (lit "ready"))),
               snd (upload_file no_encode char_decode two_pages
                                unit_embeddings index_text flat_directory 1
                                pie_file "pies"
                                (mkServer fresh_world []))))
    by (vm_compute; reflexivity).
  eexists. split; [exact Hrun |].
  exact (uploaded_document_is_found
           no_encode char_decode two_pages unit_embeddings index_text
           flat_directory 1 pie_file "pies" (mkServer fresh_world []) _ _
           pie_query
           fresh_world_keyed Hrun unit_embeddings_length).
Defined.

(** *** [chat] *)

Lemma search_length (self : SimpleVectorStore) (q : list float) (top_k : Z)
    (hits : list Hit) :
  0 <= top_k -> search self q top_k = Ok hits ->
  (length hits <= Z.to_nat top_k)%nat.
Proof.
  intros Hk. rewrite search_unfold.
  destruct (len (embeddings self) =? 0); [intros [= <-]; simpl; lia |].
  destruct (similarities self (np.array q)) as [sims | e]; [| discriminate].
  intros Hhits. apply top_results_Ok, Forall2_length in Hhits.
  rewrite <- Hhits, slice_first, length_take by assumption. lia.
Qed.

Lemma search_document_length (d : string) (q : list float) (top_k : Z)
    (w : world) (results : list Source) :
  0 <= top_k -> fst (search_document d q top_k w) = Ok results ->
  (length results <= Z.to_nat top_k)%nat.
Proof.
  intros Hk. unfold search_document.
  destruct (get_or_create_store d w) as [store w'].
  destruct (search store q top_k) as [hits | e] eqn:Hsearch; [| discriminate].
  simpl. intros [= <-]. rewrite length_map.
  eapply search_length; eassumption.
Qed.

(** Opening a store changes no file and no result of a later search. *)
Lemma get_or_create_store_again (d d' : string) (w : world) :
  fst (get_or_create_store d' (snd (get_or_create_store d w)))
  = fst (get_or_create_store d' w).
Proof.
  unfold get_or_create_store at 2.
  destruct (_stores w !! d) as [store |] eqn:Hd; [reflexivity |].
  simpl. unfold get_or_create_store. simpl.
  destruct (decide (d' = d)) as [-> | Hne].
  - rewrite lookup_insert_eq, Hd. reflexivity.
  - rewrite lookup_insert_ne by congruence.
    destruct (_stores w !! d'); reflexivity.
Qed.

Lemma get_or_create_store_files (d : string) (w : world) :
  files (snd (get_or_create_store d w)) = files w.
Proof.
  unfold get_or_create_store. destruct (_stores w !! d); reflexivity.
Qed.

Lemma get_or_create_store_keeps (d d' : string) (w : world)
    (store : SimpleVectorStore) :
  _stores w !! d' = Some store ->
  _stores (snd (get_or_create_store d w)) !! d' = Some store.
Proof.
  intros Hd'. unfold get_or_create_store.
  destruct (_stores w !! d) as [store' |] eqn:Hd; [exact Hd' |].
  simpl. rewrite lookup_insert_ne by congruence. exact Hd'.
Qed.

Lemma join_nil (sep : str) (parts : list str) :
  sep <> [] -> join sep parts = [] -> parts = [] \/ parts = [[]].
Proof.
  intros Hsep. destruct parts as [| p [| q rest]]; [auto | |].
  - simpl. intros ->. auto.
  - change (join sep (p :: q :: rest)) with (p ++ sep ++ join sep (q :: rest)).
    intros Hnil. apply app_eq_nil in Hnil as [_ Hnil].
    apply app_eq_nil in Hnil as [Hnil _]. congruence.
Qed.

(** The context that [chat] hands to [generate_answer], and what
    [generate_answer] makes of it, is at most 15 characters longer than
    [MAX_CONTEXT_LENGTH]. *)
Lemma chat_context_bounded (results : list Source) :
  results <> [] ->
  len (let context_text := join CONTEXT_SEPARATOR (map source_text results) in
       let c :=
         if len context_text >? MAX_CONTEXT_LENGTH then
           slice context_text 0 MAX_CONTEXT_LENGTH ++ lit "... [truncated]"
         else context_text in
       if truthy c then c
       else context_of_chunks
              (if len context_text >? MAX_CONTEXT_LENGTH then
                 slice (map (fun result : Source =>
                               schemas.mkSource (source_text result)
                                                (source_chunk_index result)
                                                (source_score result))
                            results) 0 5
               else
                 map (fun result : Source =>
                        schemas.mkSource (source_text result)
                                         (source_chunk_index result)
                                         (source_score result))
                     results))
  <= MAX_CONTEXT_LENGTH + 15.
Proof.
  intros Hfound. cbv zeta.
  destruct (Z.gtb_spec (len (join CONTEXT_SEPARATOR (map source_text results)))
                       MAX_CONTEXT_LENGTH) as [Hlong | Hshort].
  - replace (truthy (_ ++ lit "... [truncated]")) with true
      by (destruct (slice _ 0 MAX_CONTEXT_LENGTH); reflexivity).
    rewrite len_app, slice_first by (unfold MAX_CONTEXT_LENGTH; lia).
    unfold len at 1. rewrite length_take.
    change (len (lit "... [truncated]")) with 15.
    unfold MAX_CONTEXT_LENGTH. lia.
  - destruct (join CONTEXT_SEPARATOR (map source_text results)) as [| c rest]
      eqn:Hjoin; [| simpl truthy; cbv iota; lia].
    apply join_nil in Hjoin; [| discriminate].
    destruct results as [| result [| result' results]];
      [congruence | | destruct Hjoin; discriminate].
    destruct Hjoin as [Hjoin | Hjoin]; [discriminate |].
    injection Hjoin as Hjoin. simpl truthy. cbv iota.
    unfold context_of_chunks. simpl. rewrite Hjoin. vm_compute. discriminate.
Qed.

Section ChatFacts.

Variable client_embeddings_create :
  str -> list str -> fallible (list (list float)).
Variable client_post : str -> Payload -> fallible httpx.Response.
Variable str_of_exn : exn -> str.
Variable validate_answer : JSON -> fallible str.

(** The first step of [chat]. *)
Lemma create_embedding_run (question : str) (s : server) :
  create_embedding client_embeddings_create question s
  = (Some match client_embeddings_create EMBEDDING_MODEL [question] with
          | Returns embeddings => Returns (hd [] embeddings)
          | Raises message =>
              Raises (lit "Failed to create embeddings: " ++ message)
          end,
     mkServer (db s)
              (outbound s ++ [embeddings_create EMBEDDING_MODEL [question]])).
Proof.
  unfold create_embedding, create_embeddings, mbind, service_bind, reraise,
    send.
  cbv beta iota delta [negb truthy].
  destruct (client_embeddings_create EMBEDDING_MODEL [question])
    as [[| e embeddings] | message]; reflexivity.
Qed.

(** The second step. *)
Lemma search_document_run (d : string) (q : list float) (top_k : Z)
    (s : server) :
  store str_of_exn (search_document d q top_k) s
  = (Some match fst (search_document d q top_k (db s)) with
          | Ok results => Returns results
          | Raise e => Raises (str_of_exn e)
          end,
     mkServer (snd (get_or_create_store d (db s))) (outbound s)).
Proof.
  unfold store. rewrite <- (search_document_world d q top_k (db s)).
  destruct (search_document d q top_k (db s)) as [r w]. reflexivity.
Qed.

Ltac close_run :=
  cbv beta iota;
  try match goal with
      | |- context [ChatResponse ?v ?a ?b] => destruct (ChatResponse v a b)
      end;
  intros [= <- <-].

(** The state of the process after [chat]: the registry and the storage
    directory are as before, or the store of the document has been
    opened. *)
Lemma chat_steps_db (request : schemas.ChatRequest) (s s' : server)
    (o : option (fallible (reply schemas.ChatResponse))) :
  chat_steps client_embeddings_create client_post str_of_exn validate_answer
             request s
  = (o, s') ->
  db s' = db s
  \/ db s' = snd (get_or_create_store (schemas.request_doc_id request) (db s)).
Proof.
  unfold chat_steps.
  destruct (negb (truthy _) || negb (nonempty _));
    [close_run; left; reflexivity |].
  unfold mbind, service_bind, reraise.
  rewrite create_embedding_run.
  destruct (client_embeddings_create _ _) as [embeddings | message];
    [| close_run; left; reflexivity].
  rewrite search_document_run. cbn [db outbound].
  destruct (fst (search_document _ _ _ _)) as [results | e];
    [| close_run; right; reflexivity].
  destruct (len results =? 0); [close_run; right; reflexivity |].
  set (sources := if _ >? _ then slice _ 0 5 else _).
  set (context := Some _).
  unfold generate_answer.
  unfold mbind, service_bind, send, raise, pure, mret, service_ret.
  destruct (len sources =? 0); [close_run; right; reflexivity |].
  cbn [db outbound].
  destruct (client_post _ _) as [response | message];
    [| close_run; right; reflexivity].
  destruct (httpx.status_code response >=? 400);
    [close_run; right; reflexivity |].
  destruct (fallible_bind _ _ _ (httpx.json response)) as [answer | message];
    [| close_run; right; reflexivity].
  destruct (negb (json.truth answer));
    [close_run; right; reflexivity |].
  destruct (ChatResponse validate_answer answer sources);
    close_run; right; reflexivity.
Qed.

Lemma chat_db (request : schemas.ChatRequest) (s : server) :
  db (snd (chat client_embeddings_create client_post str_of_exn
                validate_answer request s))
  = db s
  \/ db (snd (chat client_embeddings_create client_post str_of_exn
                   validate_answer request s))
     = snd (get_or_create_store (schemas.request_doc_id request) (db s)).
Proof.
  unfold chat.
  destruct (chat_steps _ _ _ _ request s) as [o s'] eqn:Hsteps.
  apply chat_steps_db in Hsteps.
  destruct o as [[response | message] |]; exact Hsteps.
Qed.

(** X17: asking is read-only. Whatever a call of [chat] replies, it
    writes no file, keeps every open store, and changes the result of no
    search of any document. *)
Theorem chat_read_only (request : schemas.ChatRequest) (s : server) :
  files (db (snd (chat client_embeddings_create client_post str_of_exn
                       validate_answer request s)))
  = files (db s)
  /\ (forall (d : string) (store : SimpleVectorStore),
        _stores (db s) !! d = Some store ->
        _stores (db (snd (chat client_embeddings_create client_post
                               str_of_exn validate_answer request s))) !! d
        = Some store)
  /\ (forall (d : string) (q : list float) (top_k : Z),
        fst (search_document d q top_k
               (db (snd (chat client_embeddings_create client_post
                              str_of_exn validate_answer request s))))
        = fst (search_document d q top_k (db s))).
Proof.
  destruct (chat_db request s) as [-> | ->].
  - repeat split; auto.
  - split; [apply get_or_create_store_files |]. split.
    + intros d store. apply get_or_create_store_keeps.
    + intros d q top_k. apply search_document_result,
        get_or_create_store_again.
Qed.

(** A search for at most five results gives at most five sources, so
    that [sources[:top_k]] drops none. *)
Lemma chat_sources_all {A : Type} (f : Source -> A) (d : string)
    (q : list float) (w : world) (results : list Source) (trim : bool) :
  fst (search_document d q 5 w) = Ok results ->
  (if trim then slice (map f results) 0 5 else map f results)
  = map f results.
Proof.
  intros Hsearch. destruct trim; [| reflexivity].
  apply slice_all. apply search_document_length in Hsearch; [| lia].
  unfold len. rewrite length_map. lia.
Qed.



(** X19: a refusal of the completion endpoint is reported as a failure
    of OpenAI. When chunks were retrieved and the endpoint answers with a
    status of 400 or more, [chat] replies with status 500, names
    ["OpenAI"] as the provider and passes on the status and the body of
    the refusal. *)
Theorem chat_completion_refused (request : schemas.ChatRequest) (s : server)
    (vectors : list (list float)) (results : list Source)
    (response : httpx.Response) :
  truthy (schemas.question request) = true ->
  nonempty (schemas.request_doc_id request) = true ->
  client_embeddings_create EMBEDDING_MODEL [schemas.question request]
  = Returns vectors ->
  fst (search_document (schemas.request_doc_id request) (hd [] vectors) 5
                       (db s))
  = Ok results ->
  results <> [] ->
  (forall payload : Payload,
     client_post OPENAI_BASE_URL payload = Returns response) ->
  400 <= httpx.status_code response ->
  fst (chat client_embeddings_create client_post str_of_exn validate_answer
            request s)
  = Some (JSONResponse 500
            (schemas.mkErrorResponse
               (lit "Chat request failed")
               (Some (lit "OpenAI"))
               (Some 500)
               (Some (lit "Answer generation failed: "
                      ++ lit "OpenAI API failed: "
                      ++ str_of_int (httpx.status_code response)
                      ++ lit " " ++ httpx.text response)))).
Proof.
  intros Hquestion Hdoc Hvectors Hsearch Hfound Hpost Hstatus.
  unfold chat, chat_steps.
  rewrite Hquestion, Hdoc. cbv beta iota delta [negb orb].
  unfold mbind, service_bind, reraise.
  rewrite create_embedding_run, Hvectors, search_document_run.
  cbn [db outbound]. rewrite Hsearch.
  replace (len results =? 0) with false
    by (symmetry; apply Z.eqb_neq; intros Hlen; apply len_zero_nil in Hlen;
        congruence).
  rewrite (chat_sources_all _ _ _ _ _ _ Hsearch).
  unfold generate_answer.
  replace (len (map _ results) =? 0) with false
    by (symmetry; apply Z.eqb_neq; intros Hlen; apply len_zero_nil in Hlen;
        destruct results; [congruence | discriminate Hlen]).
  unfold mbind, service_bind, send, raise, pure. rewrite Hpost.
  replace (httpx.status_code response >=? 400) with true
    by (symmetry; apply Z.geb_le; lia).
  cbn [fst].
  change (lit "OpenAI API failed: ") with (lit "OpenAI" ++ lit " API failed: ").
  rewrite <- !app_assoc, contains_infix. reflexivity.
Qed.

(** X20: a failure of the embeddings endpoint is attributed by the text
    of its message alone. When the client raises on the question, [chat]
    replies with status 500 and the message of the client after two
    prefixes, leaves the registry and the storage directory as they
    were, and names ["OpenAI"] as the provider exactly when the message
    of the client contains that word; otherwise it names ["Server"]. *)
Theorem chat_embedding_failed (request : schemas.ChatRequest) (s : server)
    (message : str) :
  truthy (schemas.question request) = true ->
  nonempty (schemas.request_doc_id request) = true ->
  client_embeddings_create EMBEDDING_MODEL [schemas.question request]
  = Raises message ->
  chat client_embeddings_create client_post str_of_exn validate_answer
       request s
  = (Some (JSONResponse 500
             (schemas.mkErrorResponse
                (lit "Chat request failed")
                (Some (if contains (lit "OpenAI") message
                       then lit "OpenAI" else lit "Server"))
                (Some 500)
                (Some (lit "Query embedding failed: "
                       ++ lit "Failed to create embeddings: " ++ message)))),
     mkServer (db s)
       (outbound s
        ++ [embeddings_create EMBEDDING_MODEL [schemas.question request]])).
Proof.
  intros Hquestion Hdoc Hraises. unfold chat, chat_steps.
  rewrite Hquestion, Hdoc. cbv beta iota delta [negb orb].
  unfold mbind, service_bind, reraise.
  rewrite create_embedding_run, Hraises.
  rewrite app_assoc.
  change (lit "OpenAI") with (79%N :: lit "penAI").
  rewrite contains_skip by reflexivity. reflexivity.
Qed.

(** The requests that one call of [chat] sends. *)
Lemma chat_steps_outbound (request : schemas.ChatRequest) (s s' : server)
    (o : option (fallible (reply schemas.ChatResponse))) :
  chat_steps client_embeddings_create client_post str_of_exn validate_answer
             request s
  = (o, s') ->
  exists new : list api_call,
    outbound s' = outbound s ++ new
    /\ (new = []
        \/ new = [embeddings_create EMBEDDING_MODEL [schemas.question request]]
        \/ exists context : str,
             len context <= MAX_CONTEXT_LENGTH + 15
             /\ new
                = [embeddings_create EMBEDDING_MODEL
                                     [schemas.question request];
                   post OPENAI_BASE_URL
                        (mkPayload OPENAI_MODEL
                           [mkMessage (lit "system") system_prompt;
                            mkMessage (lit "user")
                              (user_prompt context
                                           (schemas.question request))]
                           0x1.3333333333333p-2%float
                           1000)]).
Proof.
  unfold chat_steps.
  destruct (negb (truthy _) || negb (nonempty _));
    [close_run; exists []; rewrite app_nil_r; auto |].
  unfold mbind, service_bind, reraise.
  rewrite create_embedding_run.
  destruct (client_embeddings_create _ _) as [embeddings | message];
    [| close_run; eexists; (split; [reflexivity | auto])].
  rewrite search_document_run. cbn [db outbound].
  destruct (fst (search_document _ _ _ _)) as [results | e];
    [| close_run; eexists; (split; [reflexivity | auto])].
  destruct (Z.eqb_spec (len results) 0) as [Hnone | Hfound];
    [close_run; eexists; (split; [reflexivity | auto]) |].
  assert (Hresults : results <> []) by (intros ->; apply Hfound; reflexivity).
  pose proof (chat_context_bounded results Hresults) as Hbound.
  cbv zeta in Hbound.
  unfold generate_answer.
  unfold mbind, service_bind, send, raise, pure, mret, service_ret.
  destruct (len _ =? 0);
    [close_run; eexists; (split; [reflexivity | auto]) |].
  cbn [db outbound].
  destruct (client_post _ _) as [response | message];
    [| close_run; eexists;
       (split;
        [rewrite <- app_assoc; reflexivity
        | right; right; eexists; split; [exact Hbound | reflexivity]])].
  destruct (httpx.status_code response >=? 400);
    [close_run; eexists;
     (split;
      [rewrite <- app_assoc; reflexivity
      | right; right; eexists; split; [exact Hbound | reflexivity]]) |].
  destruct (fallible_bind _ _ _ (httpx.json response)) as [answer | message];
    [| close_run; eexists;
       (split;
        [rewrite <- app_assoc; reflexivity
        | right; right; eexists; split; [exact Hbound | reflexivity]])].
  destruct (negb (json.truth answer));
    close_run; eexists;
      (split;
       [rewrite <- app_assoc; reflexivity
       | right; right; eexists; split; [exact Hbound | reflexivity]]).
Qed.

(** X21: what one call of [chat] sends out is bounded. It sends nothing,
    or the question to the embeddings endpoint, or that and then one
    completion request; and the completion request carries the fixed
    system prompt and a user prompt made of the question and of at most
    [MAX_CONTEXT_LENGTH + 15] characters of the document. *)
Theorem chat_requests_bounded (request : schemas.ChatRequest) (s : server) :
  exists new : list api_call,
    outbound (snd (chat client_embeddings_create client_post str_of_exn
                        validate_answer request s))
    = outbound s ++ new
    /\ (new = []
        \/ new = [embeddings_create EMBEDDING_MODEL [schemas.question request]]
        \/ exists context : str,
             len context <= MAX_CONTEXT_LENGTH + 15
             /\ new
                = [embeddings_create EMBEDDING_MODEL
                                     [schemas.question request];
                   post OPENAI_BASE_URL
                        (mkPayload OPENAI_MODEL
                           [mkMessage (lit "system") system_prompt;
                            mkMessage (lit "user")
                              (user_prompt context
                                           (schemas.question request))]
                           0x1.3333333333333p-2%float
                           1000)]).
Proof.
  unfold chat.
  destruct (chat_steps _ _ _ _ request s) as [o s'] eqn:Hsteps.
  apply chat_steps_outbound in Hsteps.
  destruct o as [[response | message] |]; exact Hsteps.
Qed.

(** X22: an answer of the completion endpoint is passed on with all the
    retrieved chunks as its sources. When chunks were retrieved and the
    endpoint answers below status 400 with a body in which
    [choices[0].message.content] is a string that is not empty, [chat]
    replies with that string as the answer and with one source for each
    result of the search, in the order of the search. *)
Theorem chat_answers (request : schemas.ChatRequest) (s : server)
    (vectors : list (list float)) (results : list Source)
    (response : httpx.Response)
    (data choice message : list (str * JSON)) (choices : list JSON)
    (answer : str) :
  truthy (schemas.question request) = true ->
  nonempty (schemas.request_doc_id request) = true ->
  client_embeddings_create EMBEDDING_MODEL [schemas.question request]
  = Returns vectors ->
  fst (search_document (schemas.request_doc_id request) (hd [] vectors) 5
                       (db s))
  = Ok results ->
  results <> [] ->
  (forall payload : Payload,
     client_post OPENAI_BASE_URL payload = Returns response) ->
  httpx.status_code response < 400 ->
  httpx.json response = Returns (JDict data) ->
  json.lookup (lit "choices") data = Some (JList (JDict choice :: choices)) ->
  json.lookup (lit "message") choice = Some (JDict message) ->
  json.lookup (lit "content") message = Some (JStr answer) ->
  answer <> [] ->
  fst (chat client_embeddings_create client_post str_of_exn validate_answer
            request s)
  = Some (Model
            (schemas.mkChatResponse
               answer
               (map (fun result : Source =>
                       schemas.mkSource (source_text result)
                                        (source_chunk_index result)
                                        (source_score result))
                    results))).
Proof.
  intros Hquestion Hdoc Hvectors Hsearch Hfound Hpost Hstatus
         Hjson Hchoices Hmessage Hcontent Hanswer.
  unfold chat, chat_steps.
  rewrite Hquestion, Hdoc. cbv beta iota delta [negb orb].
  unfold mbind at 1 2, service_bind, reraise.
  rewrite create_embedding_run, Hvectors, search_document_run.
  cbn [db outbound]. rewrite Hsearch.
  replace (len results =? 0) with false
    by (symmetry; apply Z.eqb_neq; intros Hlen; apply len_zero_nil in Hlen;
        congruence).
  rewrite (chat_sources_all _ _ _ _ _ _ Hsearch).
  unfold generate_answer.
  replace (len (map _ results) =? 0) with false
    by (symmetry; apply Z.eqb_neq; intros Hlen; apply len_zero_nil in Hlen;
        destruct results; [congruence | discriminate Hlen]).
  unfold mbind, service_bind, send, raise, pure. rewrite Hpost.
  replace (httpx.status_code response >=? 400) with false
    by (symmetry; rewrite Z.geb_leb; apply Z.leb_gt; lia).
  rewrite Hjson. unfold fallible_bind, json.get.
  rewrite Hchoices. unfold json.first. rewrite Hmessage, Hcontent.
  unfold json.truth.
  replace (truthy answer) with true
    by (destruct answer; [congruence | reflexivity]).
  reflexivity.
Qed.

(** X24: a completion without an answer. When chunks were retrieved and
    the endpoint answers below status 400 with an object, [chat] replies
    with status 500 in two cases: if the object has no ["choices"], the
    defaults of the three [get] lead to no content, the failure is
    reported as OpenAI not returning a valid answer and attributed to
    ["OpenAI"]; if ["choices"] is an empty list, the [IndexError] of
    [choices[0]] is reported and attributed to ["Server"]. *)
Theorem chat_completion_without_answer (request : schemas.ChatRequest)
    (s : server) (vectors : list (list float)) (results : list Source)
    (response : httpx.Response) (data : list (str * JSON))
    (choices : option JSON) :
  truthy (schemas.question request) = true ->
  nonempty (schemas.request_doc_id request) = true ->
  client_embeddings_create EMBEDDING_MODEL [schemas.question request]
  = Returns vectors ->
  fst (search_document (schemas.request_doc_id request) (hd [] vectors) 5
                       (db s))
  = Ok results ->
  results <> [] ->
  (forall payload : Payload,
     client_post OPENAI_BASE_URL payload = Returns response) ->
  httpx.status_code response < 400 ->
  httpx.json response = Returns (JDict data) ->
  json.lookup (lit "choices") data = choices ->
  choices = None \/ choices = Some (JList []) ->
  fst (chat client_embeddings_create client_post str_of_exn validate_answer
            request s)
  = Some (JSONResponse 500
            (schemas.mkErrorResponse
               (lit "Chat request failed")
               (Some match choices with
                     | None => lit "OpenAI"
                     | Some _ => lit "Server"
                     end)
               (Some 500)
               (Some (lit "Answer generation failed: "
                      ++ match choices with
                         | None => lit "OpenAI did not return a valid answer"
                         | Some _ => lit "list index out of range"
                         end)))).
Proof.
  intros Hquestion Hdoc Hvectors Hsearch Hfound Hpost Hstatus
         Hjson Hchoices Hcases.
  unfold chat, chat_steps.
  rewrite Hquestion, Hdoc. cbv beta iota delta [negb orb].
  unfold mbind at 1 2, service_bind, reraise.
  rewrite create_embedding_run, Hvectors, search_document_run.
  cbn [db outbound]. rewrite Hsearch.
  replace (len results =? 0) with false
    by (symmetry; apply Z.eqb_neq; intros Hlen; apply len_zero_nil in Hlen;
        congruence).
  rewrite (chat_sources_all _ _ _ _ _ _ Hsearch).
  unfold generate_answer.
  replace (len (map _ results) =? 0) with false
    by (symmetry; apply Z.eqb_neq; intros Hlen; apply len_zero_nil in Hlen;
        destruct results; [congruence | discriminate Hlen]).
  unfold mbind, service_bind, send, raise, pure. rewrite Hpost.
  replace (httpx.status_code response >=? 400) with false
    by (symmetry; rewrite Z.geb_leb; apply Z.leb_gt; lia).
  rewrite Hjson. unfold fallible_bind, json.get. rewrite Hchoices.
  destruct Hcases as [-> | ->]; reflexivity.
Qed.

End ChatFacts.


Lemma pie_results_found :
  fst (search_document "pies" (hd [] [[1; 0]%float]) 5 pie_world)
  = Ok pie_results.
Proof. vm_compute. reflexivity. Qed.

Lemma pie_results_nonempty : pie_results <> [].
Proof. vm_compute. discriminate. Qed.

Lemma chat_completion_refused_witness :
  truthy (schemas.question pie_question) = true
  /\ nonempty (schemas.request_doc_id pie_question) = true
  /\ unit_embeddings EMBEDDING_MODEL [schemas.question pie_question]
     = Returns [[1; 0]%float]
  /\ fst (search_document "pies" (hd [] [[1; 0]%float]) 5 pie_world)
     = Ok pie_results
  /\ pie_results <> []
  /\ (forall payload : Payload,
        refusing_post OPENAI_BASE_URL payload = Returns refusal)
  /\ 400 <= httpx.status_code refusal
  /\ fst (chat unit_embeddings refusing_post index_text string_expected
               pie_question (mkServer pie_world []))
     = Some (JSONResponse 500
               (schemas.mkErrorResponse
                  (lit "Chat request failed")
                  (Some (lit "OpenAI"))
                  (Some 500)
                  (Some (lit "Answer generation failed: OpenAI API failed: 429 Too Many Requests")))).
Proof.
  repeat (split;
          [first [ exact pie_results_nonempty | exact pie_results_found
                 | reflexivity | discriminate ] |]).
  exact (chat_completion_refused unit_embeddings refusing_post index_text
           string_expected pie_question (mkServer pie_world [])
           [[1; 0]%float] pie_results refusal
           eq_refl eq_refl eq_refl pie_results_found pie_results_nonempty
           (fun _ => eq_refl) ltac:(discriminate)).
Defined.

Lemma chat_embedding_failed_witness :
  truthy (schemas.question pie_question) = true
  /\ nonempty (schemas.request_doc_id pie_question) = true
  /\ no_embeddings EMBEDDING_MODEL [schemas.question pie_question]
     = Raises (lit "Connection error.")
  /\ chat no_embeddings answering_post index_text string_expected
          pie_question (mkServer pie_world [])
     = (Some (JSONResponse 500
                (schemas.mkErrorResponse
                   (lit "Chat request failed")
                   (Some (lit "Server"))
                   (Some 500)
                   (Some (lit "Query embedding failed: Failed to create embeddings: Connection error.")))),
        mkServer pie_world
                 [embeddings_create EMBEDDING_MODEL [lit "Which pie?"]]).
Proof.
  repeat (split; [reflexivity |]).
  exact (chat_embedding_failed no_embeddings answering_post index_text
           string_expected pie_question (mkServer pie_world [])
           (lit "Connection error.") eq_refl eq_refl eq_refl).
Defined.

Lemma chat_answers_witness :
  truthy (schemas.question pie_question) = true
  /\ nonempty (schemas.request_doc_id pie_question) = true
  /\ unit_embeddings EMBEDDING_MODEL [schemas.question pie_question]
     = Returns [[1; 0]%float]
  /\ fst (search_document "pies" (hd [] [[1; 0]%float]) 5 pie_world)
     = Ok pie_results
  /\ pie_results <> []
  /\ (forall payload : Payload,
        answering_post OPENAI_BASE_URL payload = Returns completion)
  /\ httpx.status_code completion < 400
  /\ fst (chat unit_embeddings answering_post index_text string_expected
               pie_question (mkServer pie_world []))
     = Some (Model
               (schemas.mkChatResponse
                  (lit "Apple.")
                  (map (fun result : Source =>
                          schemas.mkSource (source_text result)
                                           (source_chunk_index result)
                                           (source_score result))
                       pie_results))).
Proof.
  repeat (split;
          [first [ exact pie_results_nonempty | exact pie_results_found
                 | reflexivity | discriminate ] |]).
  exact (chat_answers unit_embeddings answering_post index_text
           string_expected pie_question (mkServer pie_world [])
           [[1; 0]%float] pie_results completion
           [(lit "id", JStr (lit "chatcmpl-1"));
            (lit "choices",
             JList [JDict [(lit "index", JInt 0);
                           (lit "message",
                            JDict [(lit "role", JStr (lit "assistant"));
                                   (lit "content", JStr (lit "Apple."))])]])]
           [(lit "index", JInt 0);
            (lit "message",
             JDict [(lit "role", JStr (lit "assistant"));
                    (lit "content", JStr (lit "Apple."))])]
           [(lit "role", JStr (lit "assistant"));
            (lit "content", JStr (lit "Apple."))]
           [] (lit "Apple.")
           eq_refl eq_refl eq_refl pie_results_found pie_results_nonempty
           (fun _ => eq_refl) eq_refl eq_refl eq_refl eq_refl eq_refl
           ltac:(discriminate)).
Defined.

Lemma chat_completion_without_answer_witness :
  truthy (schemas.question pie_question) = true
  /\ nonempty (schemas.request_doc_id pie_question) = true
  /\ unit_embeddings EMBEDDING_MODEL [schemas.question pie_question]
     = Returns [[1; 0]%float]
  /\ fst (search_document "pies" (hd [] [[1; 0]%float]) 5 pie_world)
     = Ok pie_results
  /\ pie_results <> []
  /\ (forall payload : Payload,
        empty_post OPENAI_BASE_URL payload = Returns no_choices)
  /\ httpx.status_code no_choices < 400
  /\ fst (chat unit_embeddings empty_post index_text string_expected
               pie_question (mkServer pie_world []))
     = Some (JSONResponse 500
               (schemas.mkErrorResponse
                  (lit "Chat request failed")
                  (Some (lit "Server"))
                  (Some 500)
                  (Some (lit "Answer generation failed: list index out of range")))).
Proof.
  repeat (split;
          [first [ exact pie_results_nonempty | exact pie_results_found
                 | reflexivity | discriminate ] |]).
  exact (chat_completion_without_answer
           unit_embeddings empty_post index_text string_expected
           pie_question (mkServer pie_world [])
           [[1; 0]%float] pie_results no_choices
           [(lit "choices", JList [])] (Some (JList []))
           eq_refl eq_refl eq_refl pie_results_found pie_results_nonempty
           (fun _ => eq_refl) eq_refl eq_refl eq_refl
           (or_intror eq_refl)).
Defined.
